(** * SunnyOS IDE: the probe response model, the agent session provider
      with its streamed edits, the authentication-session store, the
      diffstat helper and the semantic search command, embedded as Rocq
      functions and checked against the repository's specification.

    Layout: Part I holds the embedding, one module per source class or
    file; Part II holds the facts proved about it, and the small
    settings the facts are tried on. *)

From Stdlib Require Import Floats Ascii String.
From stdpp Require Import gmap strings list pretty.

(* ===================================================================== *)
(** * Part I: the embedding                                               *)
(* ===================================================================== *)

(** ** The JavaScript array and string primitives the sources rely on *)

Module Js.

(** A call either returns a value or throws. *)
Inductive Completion (A : Type) : Type :=
| Returned (a : A)
| Threw (message : string).
Arguments Returned {A} a.
Arguments Threw {A} message.

(** [Array.prototype.findIndex]: the first index whose element satisfies
    the predicate, [-1] when there is none. *)
Fixpoint findIndexFrom {A : Type} (p : A → bool) (l : list A) (i : Z) : Z :=
  match l with
  | [] => (-1)%Z
  | x :: l' => if p x then i else findIndexFrom p l' (i + 1)%Z
  end.

Definition findIndex {A : Type} (p : A → bool) (l : list A) : Z :=
  findIndexFrom p l 0%Z.

(** [Array.prototype.find]: the first element satisfying the predicate,
    [undefined] (here [None]) when there is none. *)
Fixpoint find {A : Type} (p : A → bool) (l : list A) : option A :=
  match l with
  | [] => None
  | x :: l' => if p x then Some x else find p l'
  end.

(** [arr[i]] for an integer [i]: [undefined] outside [0 .. length - 1],
    in particular at [-1]. *)
Definition at_index {A : Type} (l : list A) (i : Z) : option A :=
  if bool_decide (0 ≤ i)%Z then l !! Z.to_nat i else None.

(** [arr.splice(start, deleteCount)], the array left behind.  A negative
    [start] counts from the end of the array: the actual start is
    [max (length + start) 0]; a [start] past the end is clamped to the
    length, and the count to what is left after the start. *)
Definition splice {A : Type} (start : Z) (deleteCount : nat) (l : list A) : list A :=
  let len := Z.of_nat (length l) in
  let actualStart :=
    Z.to_nat (if bool_decide (start < 0)%Z then Z.max (len + start) 0 else Z.min start len) in
  let actualDeleteCount := Nat.min deleteCount (length l - actualStart) in
  take actualStart l ++ drop (actualStart + actualDeleteCount) l.

(** [arr[i] = x] for an index inside the array. *)
Definition set_index {A : Type} (l : list A) (i : Z) (x : A) : list A :=
  <[Z.to_nat i := x]> l.

(** A string is truthy unless it is empty. *)
Definition truthy (s : string) : bool := negb (bool_decide (s = "")).

(** [Array(n).fill(x)]. *)
Definition Array_fill {A : Type} (n : nat) (x : A) : list A := replicate n x.

End Js.

(** ** aideCommandPalettePanel.ts: the diffstat boxes *)

Module Diffstat.

(** [interface FileChanges]: two JavaScript numbers, that is, binary64
    floating-point values. *)
Record FileChanges : Type := { added : float; removed : float }.

(** [type DiffStat = ('added' | 'removed' | 'empty')[]].  The type is
    erased at run time, where a box is whatever string was stored. *)
Definition DiffStat : Type := list string.

(** The loop counter [i] as a number: [0] incremented [n] times. *)
Definition counter (n : nat) : float := Nat.iter n (λ i, i + 1)%float 0%float.

(** One turn of the loop of [calculateDiffstat]: the value stored in box
    [i]. *)
Definition box (addRatio delRatio : float) (i : float) : string :=
  let threshold := ((i + 1) / 5)%float in
  if (threshold <? addRatio)%float then "added"
  else if (1 - threshold <? delRatio)%float then "removed"
  else "empty".

Definition calculateDiffstat
    (totalChanges linesAdded linesRemoved : float) (numberOfBoxes : nat) : DiffStat :=
  if (totalChanges =? 0)%float then Js.Array_fill numberOfBoxes "emtpty"
  else
    let addRatio := (linesAdded / totalChanges)%float in
    let delRatio := (linesRemoved / totalChanges)%float in
    let diffstat := Js.Array_fill numberOfBoxes "empty" in
    foldl (λ diffstat i, <[i := box addRatio delRatio (counter i)]> diffstat)
          diffstat (seq 0 numberOfBoxes).

(** [generateDiffstats]: [Object.entries] of the record, in order, each
    entry stored in the resulting [Map] under its path. *)
Definition generateDiffstats (fileChanges : list (string * FileChanges)) : gmap string DiffStat :=
  foldl (λ diffstats entry,
           let '(path, changes) := entry in
           let totalChanges := (added changes + removed changes)%float in
           let stat := calculateDiffstat totalChanges (added changes) (removed changes) 5 in
           <[path := stat]> diffstats)
        ∅ fileChanges.

End Diffstat.

(** ** The authentication provider (CodeStoryAuthProvider) *)

Module Auth.

Record Account : Type := { label : string; account_id : string }.

(** [interface CodeStoryAuthenticationSession extends AuthenticationSession]. *)
Record CodeStoryAuthenticationSession : Type := {
  id : string;
  accessToken : string;
  refreshToken : string;
  expiresIn : Z;
  account : Account;
  scopes : list string
}.

Definition AUTH_TYPE : string := "codestory".
Definition SESSIONS_SECRET_KEY : string := AUTH_TYPE +:+ ".sessions".

(** The host's [JSON] object, restricted to session lists.  [JSON_parse]
    is [None] where [JSON.parse] throws a [SyntaxError]. *)
Class Json : Type := {
  JSON_parse : string → option (list CodeStoryAuthenticationSession);
  JSON_stringify : list CodeStoryAuthenticationSession → string
}.

(** [AuthenticationProviderAuthenticationSessionsChangeEvent]. *)
Record SessionsChangeEvent : Type := {
  ev_added : list CodeStoryAuthenticationSession;
  ev_removed : list CodeStoryAuthenticationSession;
  ev_changed : list CodeStoryAuthenticationSession
}.

(** What the provider acts on: the host's secret storage
    ([context.secrets]) and the events fired so far on
    [_sessionChangeEmitter], oldest first. *)
Record Host : Type := {
  secrets : gmap string string;
  fired : list SessionsChangeEvent
}.

Definition store (key value : string) (h : Host) : Host :=
  {| secrets := <[key := value]> (secrets h); fired := fired h |}.

Definition fire (e : SessionsChangeEvent) (h : Host) : Host :=
  {| secrets := secrets h; fired := fired h ++ [e] |}.

(** [context.secrets.get(key)], tested for truthiness: [undefined] and
    the empty string both fail the test. *)
Definition get_truthy (key : string) (h : Host) : option string :=
  match secrets h !! key with
  | Some allSessions => if Js.truthy allSessions then Some allSessions else None
  | None => None
  end.

Section WithJson.
Context `{Json}.

Definition getSessions (h : Host) : Js.Completion (list CodeStoryAuthenticationSession) :=
  match get_truthy SESSIONS_SECRET_KEY h with
  | Some allSessions =>
      match JSON_parse allSessions with
      | Some sessions => Js.Returned sessions
      | None => Js.Threw "SyntaxError"
      end
  | None => Js.Returned []
  end.

Definition removeSession (sessionId : string) (h : Host) : Js.Completion unit * Host :=
  match get_truthy SESSIONS_SECRET_KEY h with
  | Some allSessions =>
      match JSON_parse allSessions with
      | Some sessions =>
          let sessionIdx := Js.findIndex (λ s, bool_decide (id s = sessionId)) sessions in
          let session := Js.at_index sessions sessionIdx in
          let sessions := Js.splice sessionIdx 1 sessions in
          let h := store SESSIONS_SECRET_KEY (JSON_stringify sessions) h in
          match session with
          | Some session =>
              (Js.Returned (),
               fire {| ev_added := []; ev_removed := [session]; ev_changed := [] |} h)
          | None => (Js.Returned (), h)
          end
      | None => (Js.Threw "SyntaxError", h)
      end
  | None => (Js.Returned (), h)
  end.

End WithJson.

End Auth.

(** ** The probe model (AideProbeResponseModel, AideProbeModel) *)

Module Probe.

(** What the model takes from the editor and from [aideProbeService],
    neither of which it defines: the [URI] class with its [toString], and
    the parts of a progress item that the model stores without reading
    (ranges, edits, the thinking text).  A [URI] here is what a URI
    object denotes, its five components, and [uri_toString] the text
    [toString()] gives for them.  [equals] of [vs/base/common/objects]
    compares two values structurally, own property by own property. *)
Class Editor : Type := {
  URI : Type;
  URI_eq_dec :: EqDecision URI;
  uri_toString : URI → string;
  Detail : Type
}.

Definition equals {A : Type} `{EqDecision A} (one other : A) : bool :=
  bool_decide (one = other).

Section WithEditor.
Context `{Editor}.

(** A URI object as [equals] sees it.  Next to the components the
    editor's class keeps two own properties as caches, [_formatted] and
    [_fsPath], null until [toString()] and [fsPath] are first read (or
    filled on arrival, when the sender had read them), and [equals]
    compares them with the rest: two URI objects of the same components
    are unequal while a cache is filled in one and null in the other. *)
Record UriObject : Type := {
  components : URI;
  _formatted : option string;
  _fsPath : option string
}.

#[global] Instance UriObject_eq_dec : EqDecision UriObject.
Proof. solve_decision. Defined.

(** The object after [toString()] has been read on it. *)
Definition formatted (u : UriObject) : UriObject :=
  match _formatted u with
  | Some _ => u
  | None => {| components := components u;
               _formatted := Some (uri_toString (components u));
               _fsPath := _fsPath u |}
  end.

(** [IMarkdownString], of which the model reads [value]. *)
Record IMarkdownString : Type := { value : string }.

Record Reference : Type := { uri : URI; name : string }.

(** [IAideProbeBreakdownContent]; the three texts are optional. *)
Record IAideProbeBreakdownContent : Type := {
  reference : Reference;
  query : option IMarkdownString;
  reason : option IMarkdownString;
  response : option IMarkdownString
}.

(** [IAideProbeGoToDefinition]; [applyGoToDefinition] hands its [uri] to
    [equals], which looks at the whole object. *)
Record IAideProbeGoToDefinition : Type := {
  gtd_uri : UriObject;
  gtd_name : string;
  gtd_detail : Detail
}.

Record IAideProbeTextEditPreview : Type := {
  preview_reference : Reference;
  preview_detail : Detail
}.

Record IAideProbeTextEdit : Type := {
  edit_reference : Reference;
  edit_detail : Detail
}.

(** [IAideProbeProgress], told apart by [kind].  The switch of
    [acceptResponseProgress] has no default branch: [otherProgress]
    stands for an item of any kind it does not list. *)
Inductive IAideProbeProgress : Type :=
| markdownContent (content : IMarkdownString)
| breakdown (b : IAideProbeBreakdownContent)
| goToDefinition (g : IAideProbeGoToDefinition)
| textEditPreview (p : IAideProbeTextEditPreview)
| textEdit (e : IAideProbeTextEdit)
| otherProgress (kind : string).

(** The response model.  Breakdown records are JavaScript objects shared
    between [_breakdownsBySymbol] and [_breakdowns], and the model assigns
    to their fields: [objects] is the store of these records, an object
    being its index there, and the map and the array hold indices. *)
Record AideProbeResponseModel : Type := {
  _result : option IMarkdownString;
  objects : list IAideProbeBreakdownContent;
  _breakdownsBySymbol : gmap string nat;
  _breakdowns : list nat;
  _goToDefinitions : list IAideProbeGoToDefinition;
  _codeEditsPreviewBySymbol : gmap string (list IAideProbeTextEditPreview);
  _codeEditsPreview : list IAideProbeTextEditPreview;
  _codeEdits : list IAideProbeTextEdit
}.

(** [new AideProbeResponseModel()]. *)
Definition newResponse : AideProbeResponseModel :=
  {| _result := None; objects := []; _breakdownsBySymbol := ∅; _breakdowns := [];
     _goToDefinitions := []; _codeEditsPreviewBySymbol := ∅;
     _codeEditsPreview := []; _codeEdits := [] |}.

(** The getters. *)
Definition result (r : AideProbeResponseModel) : option IMarkdownString := _result r.
Definition breakdowns (r : AideProbeResponseModel) : list IAideProbeBreakdownContent :=
  omap (λ o, objects r !! o) (_breakdowns r).
Definition goToDefinitions (r : AideProbeResponseModel) := _goToDefinitions r.
Definition codeEditsPreview (r : AideProbeResponseModel) := _codeEditsPreview r.
Definition codeEdits (r : AideProbeResponseModel) := _codeEdits r.

Definition set_result (v : IMarkdownString) (r : AideProbeResponseModel) :=
  {| _result := Some v; objects := objects r;
     _breakdownsBySymbol := _breakdownsBySymbol r; _breakdowns := _breakdowns r;
     _goToDefinitions := _goToDefinitions r;
     _codeEditsPreviewBySymbol := _codeEditsPreviewBySymbol r;
     _codeEditsPreview := _codeEditsPreview r; _codeEdits := _codeEdits r |}.

Definition with_breakdowns
    (os : list IAideProbeBreakdownContent) (m : gmap string nat) (l : list nat)
    (r : AideProbeResponseModel) :=
  {| _result := _result r; objects := os; _breakdownsBySymbol := m; _breakdowns := l;
     _goToDefinitions := _goToDefinitions r;
     _codeEditsPreviewBySymbol := _codeEditsPreviewBySymbol r;
     _codeEditsPreview := _codeEditsPreview r; _codeEdits := _codeEdits r |}.

Definition with_goToDefinitions
    (l : list IAideProbeGoToDefinition) (r : AideProbeResponseModel) :=
  {| _result := _result r; objects := objects r;
     _breakdownsBySymbol := _breakdownsBySymbol r; _breakdowns := _breakdowns r;
     _goToDefinitions := l;
     _codeEditsPreviewBySymbol := _codeEditsPreviewBySymbol r;
     _codeEditsPreview := _codeEditsPreview r; _codeEdits := _codeEdits r |}.

Definition with_codeEdits
    (m : gmap string (list IAideProbeTextEditPreview))
    (ps : list IAideProbeTextEditPreview) (es : list IAideProbeTextEdit)
    (r : AideProbeResponseModel) :=
  {| _result := _result r; objects := objects r;
     _breakdownsBySymbol := _breakdownsBySymbol r; _breakdowns := _breakdowns r;
     _goToDefinitions := _goToDefinitions r;
     _codeEditsPreviewBySymbol := m; _codeEditsPreview := ps; _codeEdits := es |}.

(** The template string [`${uri.toString()}:${name}`]. *)
Definition symbolKey (ref : Reference) : string :=
  uri_toString (uri ref) +:+ ":" +:+ name ref.

(** [text && text.value.length > 0]. *)
Definition nonEmpty (text : option IMarkdownString) : bool :=
  match text with
  | Some t => bool_decide (0 < String.length (value t))
  | None => false
  end.

Definition assign_query (text : option IMarkdownString) (b : IAideProbeBreakdownContent) :=
  {| reference := reference b; query := text; reason := reason b; response := response b |}.
Definition assign_reason (text : option IMarkdownString) (b : IAideProbeBreakdownContent) :=
  {| reference := reference b; query := query b; reason := text; response := response b |}.
Definition assign_response (text : option IMarkdownString) (b : IAideProbeBreakdownContent) :=
  {| reference := reference b; query := query b; reason := reason b; response := text |}.

(** The three guarded assignments of [applyBreakdown], on the object [o]. *)
Definition overwrite (incoming : IAideProbeBreakdownContent) (o : nat)
    (os : list IAideProbeBreakdownContent) : list IAideProbeBreakdownContent :=
  let os := if nonEmpty (query incoming) then alter (assign_query (query incoming)) o os else os in
  let os := if nonEmpty (reason incoming) then alter (assign_reason (reason incoming)) o os else os in
  if nonEmpty (response incoming) then alter (assign_response (response incoming)) o os else os.

(** The predicate handed to [findIndex].  The uris are compared by what
    they denote: whatever index the search gives, the assignment that
    follows it puts the object of the map where the array holds that
    object already. *)
Definition sameSymbol (os : list IAideProbeBreakdownContent)
    (incoming : IAideProbeBreakdownContent) (o : nat) : bool :=
  match os !! o with
  | Some b => equals (name (reference b)) (name (reference incoming))
              && equals (uri (reference b)) (uri (reference incoming))
  | None => false
  end.

Definition applyBreakdown (incoming : IAideProbeBreakdownContent)
    (r : AideProbeResponseModel) : AideProbeResponseModel :=
  let mapKey := symbolKey (reference incoming) in
  match _breakdownsBySymbol r !! mapKey with
  | Some o =>
      let os := overwrite incoming o (objects r) in
      let index := Js.findIndex (sameSymbol os incoming) (_breakdowns r) in
      let l := if bool_decide (index ≠ (-1)%Z) then Js.set_index (_breakdowns r) index o
               else _breakdowns r in
      with_breakdowns os (_breakdownsBySymbol r) l r
  | None =>
      let o := length (objects r) in
      with_breakdowns (objects r ++ [incoming]) (<[mapKey := o]> (_breakdownsBySymbol r))
                      (_breakdowns r ++ [o]) r
  end.

Definition applyGoToDefinition (g : IAideProbeGoToDefinition)
    (r : AideProbeResponseModel) : AideProbeResponseModel :=
  let existing :=
    Js.find (λ gtd, equals (gtd_uri gtd) (gtd_uri g) && equals (gtd_name gtd) (gtd_name g))
            (_goToDefinitions r) in
  match existing with
  | Some _ => r
  | None => with_goToDefinitions (_goToDefinitions r ++ [g]) r
  end.

Definition applyCodeEditPreview (p : IAideProbeTextEditPreview)
    (r : AideProbeResponseModel) : AideProbeResponseModel :=
  let mapKey := symbolKey (preview_reference p) in
  match _codeEditsPreviewBySymbol r !! mapKey with
  | Some ps =>
      with_codeEdits (<[mapKey := ps ++ [p]]> (_codeEditsPreviewBySymbol r))
                     (_codeEditsPreview r) (_codeEdits r) r
  | None =>
      with_codeEdits (<[mapKey := [p]]> (_codeEditsPreviewBySymbol r))
                     (_codeEditsPreview r ++ [p]) (_codeEdits r) r
  end.

Definition applyCodeEdit (e : IAideProbeTextEdit)
    (r : AideProbeResponseModel) : AideProbeResponseModel :=
  let mapKey := symbolKey (edit_reference e) in
  let m := match _codeEditsPreviewBySymbol r !! mapKey with
           | Some _ => delete mapKey (_codeEditsPreviewBySymbol r)
           | None => _codeEditsPreviewBySymbol r
           end in
  with_codeEdits m (_codeEditsPreview r) (_codeEdits r ++ [e]) r.

(** The probe model and the events it emits. *)
Record AideProbeRequestModel : Type := {
  request_sessionId : string;
  message : string;
  editMode : bool
}.

Inductive ModelEvent : Type :=
| onDidChange
| onDidChangeTailing (follow : bool).

(** [emitted] lists the events fired so far, oldest first. *)
Record AideProbeModel : Type := {
  _request : option AideProbeRequestModel;
  _response : option AideProbeResponseModel;
  _isComplete : bool;
  _isTailing : bool;
  _sessionId : string;
  emitted : list ModelEvent
}.



Definition acceptResponseProgress (progress : IAideProbeProgress)
    (m : AideProbeModel) : Js.Completion AideProbeModel :=
  match _request m with
  | None => Js.Threw "Request not yet initialised"
  | Some _ =>
      let response := match _response m with
                      | Some r => r
                      | None => newResponse
                      end in
      let response :=
        match progress with
        | markdownContent content => set_result content response
        | breakdown b => applyBreakdown b response
        | goToDefinition g => applyGoToDefinition g response
        | textEditPreview p => applyCodeEditPreview p response
        | textEdit e => applyCodeEdit e response
        | otherProgress _ => response
        end in
      Js.Returned
        {| _request := _request m; _response := Some response;
           _isComplete := _isComplete m; _isTailing := _isTailing m;
           _sessionId := _sessionId m; emitted := emitted m ++ [onDidChange] |}
  end.

Definition followAlong (follow : bool) (m : AideProbeModel) : AideProbeModel :=
  {| _request := _request m; _response := _response m; _isComplete := _isComplete m;
     _isTailing := follow; _sessionId := _sessionId m;
     emitted := emitted m ++ [onDidChangeTailing follow] |}.

Definition completeResponse (m : AideProbeModel) : AideProbeModel :=
  let m := followAlong false
             {| _request := _request m; _response := _response m; _isComplete := true;
                _isTailing := _isTailing m; _sessionId := _sessionId m;
                emitted := emitted m |} in
  {| _request := _request m; _response := _response m; _isComplete := _isComplete m;
     _isTailing := _isTailing m; _sessionId := _sessionId m;
     emitted := emitted m ++ [onDidChange] |}.

Definition cancelRequest (m : AideProbeModel) : AideProbeModel :=
  {| _request := None; _response := None; _isComplete := false;
     _isTailing := _isTailing m; _sessionId := _sessionId m;
     emitted := emitted m ++ [onDidChange] |}.

End WithEditor.

End Probe.

(** ** The agent session provider (AideAgentSessionProvider) *)

Module Agent.

(** Modelled from the spec: the [Limiter] of [server/applyEdits], which
    the specification calls a single-slot limiter; the number handed to
    its constructor is the number of slots. *)
Record Limiter : Type := { slots : nat }.

(** [vscode.AideAgentMode] and [vscode.AideAgentScope]: the values the
    provider compares with, and any other. *)
Inductive AideAgentMode : Type := Chat | Edit | Plan | otherMode.
Inductive AideAgentScope : Type := Selection | Codebase | otherScope.

(** The event of an [EditedCodeStreamingRequest]: the strings ['Start']
    and ['End'], or an object [{ Delta: text }]. *)
Inductive EditStreamEvent : Type :=
| Start
| End
| Delta (text : string).

(** The types the provider passes along without looking inside. *)
Class Vocabulary : Type := {
  Range : Type;
  References : Type;
  ResponseStream : Type;
  CancellationToken : Type;
  RepoRef : Type;
  AidePlanTimer : Type;
  PlanStep : Type;
  step_index : PlanStep → Z;
  AnswerStreamLine : Type;
  SidecarContextEvents : Type;
  EditsPayload : Type
}.

Section WithVocabulary.
Context `{Vocabulary}.

Record EditedCodeStreamingRequest : Type := {
  edit_request_id : string;
  range : Range;
  fs_file_path : string;
  event : EditStreamEvent;
  apply_directly : bool
}.

Record SidecarApplyEditsRequest : Type := {
  edits_fs_file_path : string;
  edits_apply_directly : bool;
  edits_payload : EditsPayload
}.

(** What both edit handlers answer. *)
Record EditResponse : Type := { response_fs_file_path : string; success : bool }.

Record AideAgentRequest : Type := {
  request_id : string;
  prompt : string;
  mode : AideAgentMode;
  scope : AideAgentScope;
  references : References
}.

(** The arguments of [new StreamProcessor(...)] that vary; the third and
    sixth are always [undefined] and [null], the seventh is the
    provider's [iterationEdits]. *)
Record StreamProcessorArgs : Type := {
  sp_responseStream : option ResponseStream;
  sp_documentLines : list string;
  sp_uri : string;
  sp_range : Range;
  sp_applyDirectly : bool;
  sp_uniqueId : nat
}.

(** [PlanActionRequest], as it is at run time: any upper-cased word, with
    an index when the command gave one. *)
(** [PlanActionRequest]; [index] is a JavaScript number. *)
Record PlanActionRequest : Type := { type : string; index : option float }.

Record SidecarPlan : Type := { plan_sessionId : string; steps : list PlanStep }.
Record PlanResponse : Type := { plan : option SidecarPlan }.

(** The sidecar's plan requests that answer with a plan. *)
Inductive PlanCall : Type :=
| createPlanRequest (query sessionId : string) (refs : References) (editorUrl : string)
| appendPlanRequest (query sessionId editorUrl : string) (refs : References)
| dropPlanFromRequest (index : option float) (sessionId : string).

(** The two streams the sidecar hands back, named by the call that made
    them. *)
Inductive SidecarStream : Type :=
| followupQuestion (query : string) (repo : RepoRef) (sessionId : string)
    (refs : References) (labels : list string) (editorUrl : string) (timer : AidePlanTimer)
| startAgentCodeEdit (query : string) (refs : References) (editorUrl sessionId : string)
    (isWholeCodebase isAnchorEditing : bool).

(** Objects made with [new]. *)
Inductive Built : Type :=
| WorkspaceEdit
| Map
| LimiterOf (capacity : nat)
| AnswerSplitOnNewLineAccumulatorStreaming
| StreamProcessorOf (args : StreamProcessorArgs)
| Position (line character : Z).

(** Calls into the collaborators, with the arguments that vary. *)
Inductive Call : Type :=
| http_createServer
| createChatParticipant (name : string)
| requestHandler_listen (port : N)
| aideAgent_dispose
| sendContextRecording_to_sidecar (events : SidecarContextEvents) (editorUrl : option string)
| applyEditsDirectly (request : SidecarApplyEditsRequest)
| applyEdits (request : SidecarApplyEditsRequest) (stream : ResponseStream)
| responseStream_close (stream : ResponseStream)
| reportFromStreamToSearchProgress (source : SidecarStream) (stream : ResponseStream)
    (token : CancellationToken) (workingDirectory : string)
| reportAgentEventsToChat (editMode : bool) (source : SidecarStream) (stream : ResponseStream)
    (sessionId : string) (token : CancellationToken) (limiter : Limiter)
| responseStream_codeEdit (stream : ResponseStream) (file : string) (at_ : Z * Z) (text : string)
| sidecar_plan (call : PlanCall)
| executePlanUntilRequest (index : option float) (sessionId editorUrl : string)
| responseStream_step (stream : ResponseStream) (sessionId : string) (isLast : bool)
    (planItem : PlanStep).

(** Values given to [console.log] and [console.error]. *)
Inductive Printed : Type :=
| text (s : string)
| number (n : Z)
| printed_range (r : Range)
| printed_lines (l : list string)
| printed_event (e : AideAgentRequest)
| printed_plan (p : PlanActionRequest).

Inductive Effect : Type :=
| console_log (args : list Printed)
| console_error (args : list Printed)
| built (what : Built)
| called (c : Call).

(** The collaborators whose code is elsewhere: the editor's workspace and
    clock ([World]), the line accumulator and the stream processor of
    [chatState/convertStreamToMessage], and what the outside answers. *)
Class Collaborators : Type := {
  World : Type;
  now : World → Z;
  openTextDocument : string → World → option string;
  save : string → World → World;
  Accumulator : Type;
  newAccumulator : Accumulator;
  addDelta : string → Accumulator → Accumulator;
  getLine : Accumulator → option AnswerStreamLine * Accumulator;
  Processor : Type;
  newProcessor : StreamProcessorArgs → Processor;
  processLine : AnswerStreamLine → Processor → World → Processor * World;
  cleanup : Processor → World → Processor * World;
  isPortOpen : N → bool;
  initResponse : string → option (ResponseStream * CancellationToken);
  applyEdits_response : SidecarApplyEditsRequest → EditResponse;
  (** [command.match(/^@(\w+)(?:\s+(\d+))?$/)]: the word of the first
      group and, when the second group took part, the number that
      [parseInt(indexStr, 10)] makes of its digits, a binary64 number
      (the digits' value up to 2^53, rounded above). *)
  plan_match : string → option (string * option float);
  (** The text a template string gives for a number: its decimal digits,
      in exponent notation from 1e21 on. *)
  numberToString : float → string;
  planResponse : PlanCall → option PlanResponse
}.

Section WithCollaborators.
Context `{Collaborators}.

Record EditsManager : Type := {
  answerSplitter : Accumulator;
  streamProcessor : Processor
}.

(** The fields of the provider that change, and the constructor's
    arguments that it keeps. *)
Record AideAgentSessionProvider : Type := {
  editorUrl : option string;
  editsMap : gmap string EditsManager;
  eventQueue : list AideAgentRequest;
  limiter : Limiter;
  openResponseStream : option ResponseStream;
  processingEvents : gmap string bool;
  sessionId : option string;
  editCounter : nat;
  currentRepoRef : RepoRef;
  labels : list string;
  workingDirectory : string;
  _timer : AidePlanTimer
}.

(** The provider, the world it edits, and what it has done so far, oldest
    first. *)
Record Machine : Type := {
  provider : AideAgentSessionProvider;
  world : World;
  effects : list Effect
}.

Definition set_provider (p : AideAgentSessionProvider) (m : Machine) : Machine :=
  {| provider := p; world := world m; effects := effects m |}.
Definition set_world (w : World) (m : Machine) : Machine :=
  {| provider := provider m; world := w; effects := effects m |}.
Definition emit (es : list Effect) (m : Machine) : Machine :=
  {| provider := provider m; world := world m; effects := effects m ++ es |}.

Definition set_editorUrl (u : option string) (p : AideAgentSessionProvider) :=
  {| editorUrl := u; editsMap := editsMap p; eventQueue := eventQueue p;
     limiter := limiter p; openResponseStream := openResponseStream p;
     processingEvents := processingEvents p; sessionId := sessionId p;
     editCounter := editCounter p; currentRepoRef := currentRepoRef p;
     labels := labels p; workingDirectory := workingDirectory p; _timer := _timer p |}.
Definition set_editsMap (em : gmap string EditsManager) (p : AideAgentSessionProvider) :=
  {| editorUrl := editorUrl p; editsMap := em; eventQueue := eventQueue p;
     limiter := limiter p; openResponseStream := openResponseStream p;
     processingEvents := processingEvents p; sessionId := sessionId p;
     editCounter := editCounter p; currentRepoRef := currentRepoRef p;
     labels := labels p; workingDirectory := workingDirectory p; _timer := _timer p |}.
Definition set_eventQueue (q : list AideAgentRequest) (p : AideAgentSessionProvider) :=
  {| editorUrl := editorUrl p; editsMap := editsMap p; eventQueue := q;
     limiter := limiter p; openResponseStream := openResponseStream p;
     processingEvents := processingEvents p; sessionId := sessionId p;
     editCounter := editCounter p; currentRepoRef := currentRepoRef p;
     labels := labels p; workingDirectory := workingDirectory p; _timer := _timer p |}.
Definition set_openResponseStream (s : option ResponseStream) (p : AideAgentSessionProvider) :=
  {| editorUrl := editorUrl p; editsMap := editsMap p; eventQueue := eventQueue p;
     limiter := limiter p; openResponseStream := s;
     processingEvents := processingEvents p; sessionId := sessionId p;
     editCounter := editCounter p; currentRepoRef := currentRepoRef p;
     labels := labels p; workingDirectory := workingDirectory p; _timer := _timer p |}.
Definition set_processingEvents (pe : gmap string bool) (p : AideAgentSessionProvider) :=
  {| editorUrl := editorUrl p; editsMap := editsMap p; eventQueue := eventQueue p;
     limiter := limiter p; openResponseStream := openResponseStream p;
     processingEvents := pe; sessionId := sessionId p;
     editCounter := editCounter p; currentRepoRef := currentRepoRef p;
     labels := labels p; workingDirectory := workingDirectory p; _timer := _timer p |}.
Definition set_sessionId (i : option string) (p : AideAgentSessionProvider) :=
  {| editorUrl := editorUrl p; editsMap := editsMap p; eventQueue := eventQueue p;
     limiter := limiter p; openResponseStream := openResponseStream p;
     processingEvents := processingEvents p; sessionId := i;
     editCounter := editCounter p; currentRepoRef := currentRepoRef p;
     labels := labels p; workingDirectory := workingDirectory p; _timer := _timer p |}.
Definition set_editCounter (n : nat) (p : AideAgentSessionProvider) :=
  {| editorUrl := editorUrl p; editsMap := editsMap p; eventQueue := eventQueue p;
     limiter := limiter p; openResponseStream := openResponseStream p;
     processingEvents := processingEvents p; sessionId := sessionId p;
     editCounter := n; currentRepoRef := currentRepoRef p;
     labels := labels p; workingDirectory := workingDirectory p; _timer := _timer p |}.

(** The field initialisers and the constructor, up to the point where it
    waits for a port. *)
Definition construct (repo : RepoRef) (projectLabels : list string) (directory : string)
    (timer : AidePlanTimer) (w : World) : Machine :=
  {| provider :=
       {| editorUrl := None; editsMap := ∅; eventQueue := [];
          limiter := {| slots := 1 |}; openResponseStream := None;
          processingEvents := ∅; sessionId := None; editCounter := 0;
          currentRepoRef := repo; labels := projectLabels;
          workingDirectory := directory; _timer := timer |};
     world := w;
     effects := [built WorkspaceEdit; built Map; built (LimiterOf 1); built Map;
                 called http_createServer; called (createChatParticipant "aide")] |}.

(** [getNextOpenPort]: [openPort] is only assigned just before the
    [break], so the test of the loop is [startFrom < 65535].  [None] when
    the fuel runs out. *)
Fixpoint getNextOpenPort (fuel : nat) (startFrom : N) : option (option N) :=
  match fuel with
  | 0 => None
  | S fuel =>
      if bool_decide (startFrom < 65535)%N then
        if isPortOpen startFrom then Some (Some startFrom)
        else getNextOpenPort fuel (startFrom + 1)%N
      else Some None
  end.

(** The continuation of the constructor once [getNextOpenPort] settles. *)
Definition portFound (port : option N) (m : Machine) : Js.Completion unit * Machine :=
  match port with
  | None => (Js.Threw "Could not find an open port", m)
  | Some port =>
      (Js.Returned (),
       set_provider (set_editorUrl (Some ("http://localhost:" +:+ pretty port)) (provider m))
                    (emit [called (requestHandler_listen port)] m))
  end.

Definition sendContextRecording (events : SidecarContextEvents) (m : Machine) : Machine :=
  emit [called (sendContextRecording_to_sidecar events (editorUrl (provider m)))] m.

(** [text.split(/\r\n|\r|\n/g)]. *)
Fixpoint splitLinesFrom (current : string) (s : string) : list string :=
  match s with
  | EmptyString => [current]
  | String c rest =>
      if bool_decide (nat_of_ascii c = 13) then
        match rest with
        | String c' rest' =>
            if bool_decide (nat_of_ascii c' = 10) then current :: splitLinesFrom "" rest'
            else current :: splitLinesFrom "" rest
        | EmptyString => current :: splitLinesFrom "" rest
        end
      else if bool_decide (nat_of_ascii c = 10) then current :: splitLinesFrom "" rest
      else splitLinesFrom (current +:+ String c EmptyString) rest
  end.

Definition splitLines (s : string) : list string := splitLinesFrom "" s.

(** The loop [while (true) { getLine; if null break; await processLine }]
    on an entry of the edits map.  [None] when the fuel runs out. *)
Fixpoint drain (fuel : nat) (editsManager : EditsManager) (w : World)
    : option (EditsManager * World) :=
  match fuel with
  | 0 => None
  | S fuel =>
      let '(currentLine, splitter) := getLine (answerSplitter editsManager) in
      match currentLine with
      | None =>
          Some ({| answerSplitter := splitter;
                   streamProcessor := streamProcessor editsManager |}, w)
      | Some currentLine =>
          let '(processor, w) := processLine currentLine (streamProcessor editsManager) w in
          drain fuel {| answerSplitter := splitter; streamProcessor := processor |} w
      end
  end.

Definition dropped : EditResponse := {| response_fs_file_path := ""; success := false |}.
Definition accepted : EditResponse := {| response_fs_file_path := ""; success := true |}.

Definition provideEditStreamed (fuel : nat) (request : EditedCodeStreamingRequest)
    (m : Machine) : option (Js.Completion EditResponse * Machine) :=
  let this := provider m in
  if negb (apply_directly request) && negb (bool_decide (is_Some (openResponseStream this)))
  then
    Some (Js.Returned dropped,
          emit [console_log [text "editing_streamed::no_open_response_stream"]] m)
  else
    let fileDocument := fs_file_path request in
    match event request with
    | Start =>
        let timeNow := now (world m) in
        match openTextDocument fileDocument (world m) with
        | None => Some (Js.Returned dropped, m)
        | Some document =>
            let documentLines := splitLines document in
            let args :=
              {| sp_responseStream := openResponseStream this;
                 sp_documentLines := documentLines;
                 sp_uri := fs_file_path request;
                 sp_range := range request;
                 sp_applyDirectly := apply_directly request;
                 sp_uniqueId := editCounter this |} in
            let editsManager :=
              {| answerSplitter := newAccumulator; streamProcessor := newProcessor args |} in
            let m :=
              emit [console_log [text "editsStreamed::content"; number timeNow; text document];
                    console_log [text "editStreaming.start"; text (fs_file_path request)];
                    console_log [printed_range (range request)];
                    console_log [printed_lines documentLines];
                    built AnswerSplitOnNewLineAccumulatorStreaming;
                    built (StreamProcessorOf args)] m in
            Some (Js.Returned accepted,
                  set_provider
                    (set_editsMap (<[edit_request_id request := editsManager]> (editsMap this))
                                  this) m)
        end
    | End =>
        match editsMap this !! edit_request_id request with
        | None => Some (Js.Threw "TypeError", m)
        | Some editsManager =>
            match drain fuel editsManager (world m) with
            | None => None
            | Some (editsManager, w) =>
                let '(_, w) := cleanup (streamProcessor editsManager) w in
                let w := save (fs_file_path request) w in
                let m := emit [console_log [text "provideEditsStreamed::finished";
                                            text (fs_file_path request)]]
                              (set_world w m) in
                let this := set_editsMap (delete (edit_request_id request) (editsMap this)) this in
                let this := set_editCounter (editCounter this + 1) this in
                Some (Js.Returned accepted, set_provider this m)
            end
        end
    | Delta delta =>
        if Js.truthy delta then
          match editsMap this !! edit_request_id request with
          | Some editsManager =>
              let editsManager :=
                {| answerSplitter := addDelta delta (answerSplitter editsManager);
                   streamProcessor := streamProcessor editsManager |} in
              match drain fuel editsManager (world m) with
              | None => None
              | Some (editsManager, w) =>
                  Some (Js.Returned accepted,
                        set_provider
                          (set_editsMap
                             (<[edit_request_id request := editsManager]> (editsMap this)) this)
                          (set_world w m))
              end
          | None => Some (Js.Returned accepted, m)
          end
        else Some (Js.Returned accepted, m)
    end.

Definition provideEdit (request : SidecarApplyEditsRequest) (m : Machine)
    : EditResponse * Machine :=
  if edits_apply_directly request then
    ({| response_fs_file_path := edits_fs_file_path request; success := true |},
     emit [called (applyEditsDirectly request)] m)
  else
    match openResponseStream (provider m) with
    | None =>
        ({| response_fs_file_path := edits_fs_file_path request; success := true |},
         emit [console_log [text "returning early over here"]] m)
    | Some stream =>
        (applyEdits_response request, emit [called (applyEdits request stream)] m)
    end.

Definition newSession (id : string) (m : Machine) : Machine :=
  set_provider (set_sessionId (Some id) (provider m)) m.

(** [String.prototype.toUpperCase] on the words the regular expression
    lets through (letters, digits and the underscore). *)
Definition upper (c : ascii) : ascii :=
  let n := nat_of_ascii c in
  if bool_decide (97 ≤ n ≤ 122) then ascii_of_nat (n - 32) else c.

Fixpoint toUpperCase (s : string) : string :=
  match s with
  | EmptyString => EmptyString
  | String c rest => String (upper c) (toUpperCase rest)
  end.

Definition parsePlanActionCommand (command : string) : Js.Completion PlanActionRequest :=
  match plan_match command with
  | None => Js.Returned {| type := "CREATE"; index := None |}
  | Some (action, indexStr) =>
      let actionType := toUpperCase action in
      if bool_decide (actionType = "DROP") || bool_decide (actionType = "EXECUTE") then
        match indexStr with
        | None => Js.Threw ("Index is required for " +:+ actionType +:+ " action")
        | Some i => Js.Returned {| type := actionType; index := Some i |}
        end
      else Js.Returned {| type := actionType; index := None |}
  end.

(** The template string [`${index}`]. *)
Definition printIndex (i : option float) : string :=
  match i with
  | Some i => numberToString i
  | None => "undefined"
  end.

(** The plan branch of [generateResponse]. *)
Definition generatePlan (sessionId : string) (event : AideAgentRequest)
    (responseStream : ResponseStream) (url : string) : list Effect :=
  let query := prompt event in
  let '(planActionRequest, caught) :=
    match parsePlanActionCommand (prompt event) with
    | Js.Returned request => (request, [])
    | Js.Threw error =>
        ({| type := "CREATE"; index := None |},
         [console_error [text error];
          console_log [text "this implicitly means that we are doing CREATE"]])
    end in
  let dropEdit :=
    if bool_decide (type planActionRequest = "DROP") then
      [built WorkspaceEdit; built (Position 0 0);
       called (responseStream_codeEdit responseStream "undoCheck" (0%Z, 0%Z)
                 (printIndex (index planActionRequest)))]
    else [] in
  let '(planResponse, requested) :=
    if bool_decide (type planActionRequest = "CREATE") then
      let call := createPlanRequest query sessionId (references event) url in
      (planResponse call, [console_log [text "create hit"]; called (sidecar_plan call)])
    else if bool_decide (type planActionRequest = "APPEND") then
      let call := appendPlanRequest query sessionId url (references event) in
      (planResponse call, [console_log [text "append hit"]; called (sidecar_plan call)])
    else if bool_decide (type planActionRequest = "DROP") then
      let call := dropPlanFromRequest (index planActionRequest) sessionId in
      (planResponse call, [console_log [text "drop hit"]; called (sidecar_plan call)])
    else if bool_decide (type planActionRequest = "EXECUTE") then
      (None, [console_log [text "execute hit"];
              called (executePlanUntilRequest (index planActionRequest) sessionId url)])
    else (None, []) in
  let stepped :=
    match planResponse ≫= plan with
    | Some thePlan =>
        (λ planItem,
           let isLast :=
             bool_decide (step_index planItem = Z.of_nat (length (steps thePlan)) - 1)%Z in
           called (responseStream_step responseStream (plan_sessionId thePlan) isLast planItem))
        <$> steps thePlan
    | None => []
    end in
  [console_log [printed_event event]] ++ caught
  ++ [console_log [printed_plan planActionRequest]] ++ dropEdit ++ requested ++ stepped.

Definition generateResponse (sessionId : string) (event : AideAgentRequest)
    (responseStream : ResponseStream) (token : CancellationToken) (m : Machine) : Machine :=
  let this := provider m in
  match editorUrl this with
  | None => emit [called (responseStream_close responseStream)] m
  | Some url =>
      if negb (Js.truthy url) then emit [called (responseStream_close responseStream)] m
      else
        let m := set_provider (set_openResponseStream (Some responseStream) this) m in
        let query := prompt event in
        match mode event with
        | Chat =>
            let followupResponse :=
              followupQuestion query (currentRepoRef this) sessionId (references event)
                               (labels this) url (_timer this) in
            emit [called (reportFromStreamToSearchProgress followupResponse responseStream token
                            (workingDirectory this))] m
        | Edit =>
            let isAnchorEditing :=
              match scope event with Selection => true | _ => false end in
            let isWholeCodebase :=
              match scope event with Codebase => true | _ => false end in
            let probeResponse :=
              startAgentCodeEdit query (references event) url sessionId
                                 isWholeCodebase isAnchorEditing in
            emit [called (reportAgentEventsToChat true probeResponse responseStream sessionId
                            token (limiter this))] m
        | Plan => emit (generatePlan sessionId event responseStream url) m
        | otherMode => m
        end
  end.

Definition processEvent (event : AideAgentRequest) (m : Machine) : Machine :=
  match sessionId (provider m) with
  | None => m
  | Some session =>
      if negb (Js.truthy session) then m
      else
        match initResponse session with
        | None => m
        | Some (stream, token) =>
            let m := generateResponse session event stream token m in
            set_provider
              (set_processingEvents (delete (request_id event) (processingEvents (provider m)))
                                    (provider m)) m
        end
  end.

(** [handleEvent] queues the event and, with a session and the event not
    yet in flight, marks it and starts [processEvent], which it does not
    wait for: the answer tells whether it was started. *)
Definition handleEvent (event : AideAgentRequest) (m : Machine) : bool * Machine :=
  let this := set_eventQueue (eventQueue (provider m) ++ [event]) (provider m) in
  let hasSession := match sessionId this with Some s => Js.truthy s | None => false end in
  if hasSession && negb (bool_decide (is_Some (processingEvents this !! request_id event))) then
    (true,
     set_provider
       (set_processingEvents (<[request_id event := true]> (processingEvents this)) this) m)
  else (false, set_provider this m).

Definition dispose (m : Machine) : Machine := emit [called aideAgent_dispose] m.

(** One call of a method of the provider, or one continuation of its
    constructor. *)
Inductive Operation : Type :=
| op_portFound (port : option N)
| op_sendContextRecording (events : SidecarContextEvents)
| op_provideEditStreamed (fuel : nat) (request : EditedCodeStreamingRequest)
| op_provideEdit (request : SidecarApplyEditsRequest)
| op_newSession (id : string)
| op_handleEvent (event : AideAgentRequest)
| op_processEvent (event : AideAgentRequest)
| op_generateResponse (sessionId : string) (event : AideAgentRequest)
    (responseStream : ResponseStream) (token : CancellationToken)
| op_dispose.

(** The machine after an operation; [None] when a loop ran out of fuel. *)
Definition run (op : Operation) (m : Machine) : option Machine :=
  match op with
  | op_portFound port => Some (snd (portFound port m))
  | op_sendContextRecording events => Some (sendContextRecording events m)
  | op_provideEditStreamed fuel request => snd <$> provideEditStreamed fuel request m
  | op_provideEdit request => Some (snd (provideEdit request m))
  | op_newSession id => Some (newSession id m)
  | op_handleEvent event => Some (snd (handleEvent event m))
  | op_processEvent event => Some (processEvent event m)
  | op_generateResponse sessionId event responseStream token =>
      Some (generateResponse sessionId event responseStream token m)
  | op_dispose => Some (dispose m)
  end.

End WithCollaborators.
End WithVocabulary.

End Agent.

(** ** extension.ts: the semantic search command *)

Module Search.

(** The sidecar client, whose code is outside the repository: what the
    promise of [getSemanticSearchResult] settles to. *)
Class Sidecar : Type := {
  CodeSymbolInformationEmbeddings : Type;
  RepoRef : Type;
  getSemanticSearchResult :
    string → RepoRef → Js.Completion (list CodeSymbolInformationEmbeddings)
}.

Section WithSidecar.
Context `{Sidecar}.

(** What [activate] has in scope when it registers the command:
    [postHogClient] tells whether the analytics client exists, and
    [uniqueId] is what [getUniqueId()] resolves to. *)
Record Activation : Type := {
  currentRepo : RepoRef;
  repoName : string;
  repoHash : string;
  postHogClient : bool;
  uniqueId : string
}.

Inductive Effect : Type :=
| logger_info (message : string)
| postHog_capture (distinctId event prompt repoName repoHash : string)
| sidecar_getSemanticSearchResult (prompt : string) (repo : RepoRef).

(** The handler registered for [codestory.semanticSearch]. *)
Definition semanticSearch (a : Activation) (prompt : string)
    : list Effect * Js.Completion (list CodeSymbolInformationEmbeddings) :=
  let logged :=
    [logger_info ("[semanticSearch][extension] We are executing semantic search :" +:+ prompt)] in
  let captured :=
    if postHogClient a
    then [postHog_capture (uniqueId a) "search" prompt (repoName a) (repoHash a)]
    else [] in
  let results := getSemanticSearchResult prompt (currentRepo a) in
  (logged ++ captured ++ [sidecar_getSemanticSearchResult prompt (currentRepo a)], results).

End WithSidecar.

End Search.

(** ** The probe model's getters *)

Module ProbeState.

Section WithEditor.
Context `{Probe.Editor}.

(** [get requestInProgress]: [!!this._request && !this._isComplete]. *)
Definition requestInProgress (m : Probe.AideProbeModel) : bool :=
  bool_decide (is_Some (Probe._request m)) && negb (Probe._isComplete m).

Definition isComplete (m : Probe.AideProbeModel) : bool := Probe._isComplete m.
Definition isTailing (m : Probe.AideProbeModel) : bool := Probe._isTailing m.
Definition response (m : Probe.AideProbeModel) : option Probe.AideProbeResponseModel :=
  Probe._response m.

End WithEditor.

End ProbeState.

(** ** Signing in (CodeStoryAuthProvider.createSession) *)

Module AuthFlow.

(** [type User]. *)
Record User : Type := {
  user_id : string;
  first_name : string;
  last_name : string;
  email : string;
  created_at : string;
  updated_at : string;
  email_verified : bool;
  profile_picture_url : string
}.

(** What [getUserInfo] answers: [{ ...data, ...tokens }]. *)
Record UserInfo : Type := {
  user : User;
  access_token : string;
  refresh_token : string
}.

(** The two steps of signing in whose code talks to the outside: [login]
    (the redirect through the browser) and [getUserInfo] (the profile
    request), each with what its promise settles to.  A rejection is
    kept as the text [`${e}`] of the value it rejects with. *)
Class Identity : Type := {
  login : list string → Js.Completion string;
  getUserInfo : string → Js.Completion UserInfo
}.

(** [CodeStoryAuthProvider.EXPIRATION_TIME_MS]. *)
Definition EXPIRATION_TIME_MS : Z := 1000 * 60 * 5.

(** The host of the provider together with the error messages shown by
    [window.showErrorMessage], oldest first. *)
Record Window : Type := {
  host : Auth.Host;
  errorMessages : list string
}.

Section WithIdentity.
Context `{Auth.Json} `{Identity}.

(** The [catch] of [createSession]: show the message, throw again. *)
Definition signInFailed (e : string) (w : Window)
    : Js.Completion Auth.CodeStoryAuthenticationSession * Window :=
  (Js.Threw e,
   {| host := host w; errorMessages := errorMessages w ++ ["Sign in failed: " +:+ e] |}).

(** [createSession]; [uuid] is what [uuidv4()] answers. *)
Definition createSession (scopes : list string) (uuid : string) (w : Window)
    : Js.Completion Auth.CodeStoryAuthenticationSession * Window :=
  match login scopes with
  | Js.Threw e => signInFailed e w
  | Js.Returned encodedTokenData =>
      if negb (Js.truthy encodedTokenData)
      then signInFailed "Error: CodeStory login failure" w
      else
        match getUserInfo encodedTokenData with
        | Js.Threw e => signInFailed e w
        | Js.Returned userInfo =>
            let session :=
              {| Auth.id := uuid;
                 Auth.accessToken := access_token userInfo;
                 Auth.refreshToken := refresh_token userInfo;
                 Auth.expiresIn := EXPIRATION_TIME_MS;
                 Auth.account :=
                   {| Auth.label := first_name (user userInfo) +:+ " "
                                    +:+ last_name (user userInfo);
                      Auth.account_id := email (user userInfo) |};
                 Auth.scopes := [] |} in
            let h := Auth.store Auth.SESSIONS_SECRET_KEY (Auth.JSON_stringify [session])
                                (host w) in
            let h := Auth.fire {| Auth.ev_added := [session]; Auth.ev_removed := [];
                                  Auth.ev_changed := [] |} h in
            (Js.Returned session, {| host := h; errorMessages := errorMessages w |})
        end
  end.

End WithIdentity.

End AuthFlow.

(* ===================================================================== *)
(** * Part II: the facts                                                  *)
(* ===================================================================== *)

Section JsFacts.
Context {A : Type}.
Implicit Types (p : A → bool) (l : list A).

Lemma findIndexFrom_none p l i :
  (0 ≤ i)%Z → Js.findIndexFrom p l i = (-1)%Z ↔ Forall (λ x, p x = false) l.
Proof.
  revert i. induction l as [|x l IH]; intros i Hi; simpl.
  - split; [constructor | done].
  - destruct (p x) eqn:Hx.
    + split; [lia | intros H; inversion H; congruence].
    + rewrite IH by lia. split; [by constructor | by inversion 1].
Qed.

Lemma findIndex_none p l :
  Js.findIndex p l = (-1)%Z ↔ Forall (λ x, p x = false) l.
Proof. by apply findIndexFrom_none. Qed.

Lemma findIndexFrom_found p l i j :
  (0 ≤ i)%Z → Js.findIndexFrom p l i = j → j ≠ (-1)%Z →
  ∃ x, l !! Z.to_nat (j - i) = Some x ∧ p x = true ∧ (i ≤ j)%Z.
Proof.
  revert i. induction l as [|x l IH]; intros i Hi; simpl.
  - congruence.
  - destruct (p x) eqn:Hx.
    + intros <- _. exists x. by rewrite Z.sub_diag.
    + intros Hj Hne. destruct (IH (i + 1)%Z ltac:(lia) Hj Hne) as (y & Hy & Hpy & Hle).
      exists y. split_and!; [|done|lia].
      replace (Z.to_nat (j - i)) with (S (Z.to_nat (j - (i + 1)))) by lia. done.
Qed.

Lemma findIndex_found p l j :
  Js.findIndex p l = j → j ≠ (-1)%Z →
  ∃ x, l !! Z.to_nat j = Some x ∧ p x = true ∧ (0 ≤ j)%Z.
Proof.
  intros Hj Hne. destruct (findIndexFrom_found p l 0 j) as (x & Hx & ? & ?); [done..|].
  exists x. by rewrite Z.sub_0_r in Hx.
Qed.

Lemma splice_minus_one l : Js.splice (-1) 1 l = removelast l.
Proof.
  unfold Js.splice. rewrite bool_decide_true by lia.
  destruct (decide (l = [])) as [->|Hne]; [done|].
  assert (0 < length l) by (destruct l; [done | simpl; lia]).
  replace (Z.to_nat (Z.max (Z.of_nat (length l) + -1) 0)) with (length l - 1) by lia.
  replace (length l - 1 + Nat.min 1 (length l - (length l - 1))) with (length l) by lia.
  rewrite drop_all, app_nil_r.
  destruct (exists_last Hne) as (l' & a & ->).
  rewrite removelast_last, length_app. simpl.
  replace (length l' + 1 - 1) with (length l') by lia.
  by rewrite take_app_length.
Qed.

End JsFacts.

(** ** Diffstat boxes *)

Section DiffstatFacts.
Import Diffstat.

Lemma calculateDiffstat_zero linesAdded linesRemoved n :
  calculateDiffstat 0%float linesAdded linesRemoved n = replicate n "emtpty".
Proof. reflexivity. Qed.

Lemma generateDiffstats_snoc fileChanges path changes :
  generateDiffstats (fileChanges ++ [(path, changes)]) =
  <[path := calculateDiffstat (added changes + removed changes)%float
                              (added changes) (removed changes) 5]>
    (generateDiffstats fileChanges).
Proof. unfold generateDiffstats. by rewrite foldl_snoc. Qed.

(** A path listed once in the record is mapped to the boxes computed from
    its own entry. *)
Lemma generateDiffstats_lookup fileChanges path changes :
  NoDup fileChanges.*1 → (path, changes) ∈ fileChanges →
  generateDiffstats fileChanges !! path =
  Some (calculateDiffstat (added changes + removed changes)%float
                          (added changes) (removed changes) 5).
Proof.
  induction fileChanges as [|[path' changes'] fileChanges IH] using rev_ind; intros Hnd Hin.
  - by apply elem_of_nil in Hin.
  - rewrite generateDiffstats_snoc.
    rewrite fmap_app in Hnd. apply NoDup_app in Hnd as (Hnd & Hfresh & _).
    apply elem_of_app in Hin as [Hin|Hin].
    + rewrite lookup_insert_ne; [by apply IH|].
      intros <-. apply (Hfresh path').
      * apply (list_elem_of_fmap_2 fst _ (path', changes)), Hin.
      * simpl. apply list_elem_of_singleton. done.
    + apply list_elem_of_singleton in Hin. injection Hin as -> ->.
      by rewrite lookup_insert_eq.
Qed.

(** A file with no added and no removed line gets five boxes, each holding
    the misspelt string of the early return. *)
Lemma generateDiffstats_unchanged_file fileChanges path changes :
  NoDup fileChanges.*1 → (path, changes) ∈ fileChanges →
  added changes = 0%float → removed changes = 0%float →
  generateDiffstats fileChanges !! path = Some (replicate 5 "emtpty").
Proof.
  intros Hnd Hin Ha Hr.
  pose proof (generateDiffstats_lookup _ _ _ Hnd Hin) as Hlookup.
  rewrite Ha, Hr in Hlookup. exact Hlookup.
Qed.

(** C6: for a file-changes record whose entry has added = 0 and
    removed = 0, generateDiffstats should map the path to five boxes each
    equal to 'empty'.  At the record with the single entry
    "/src/a.ts" -> (0, 0) the code stores five boxes, none of which is
    'empty': each is the string 'emtpty'. *)
Theorem generateDiffstats_unchanged_file_boxes :
  let stat := generateDiffstats [("/src/a.ts", {| added := 0; removed := 0 |})]
                !! "/src/a.ts" in
  stat = Some ["emtpty"; "emtpty"; "emtpty"; "emtpty"; "emtpty"] ∧
  stat ≠ Some ["empty"; "empty"; "empty"; "empty"; "empty"] ∧
  ∀ boxes, stat = Some boxes → length boxes = 5 ∧ "empty" ∉ boxes.
Proof.
  assert (generateDiffstats [("/src/a.ts", {| added := 0; removed := 0 |})]
            !! "/src/a.ts" = Some (replicate 5 "emtpty")) as Heq.
  { apply (generateDiffstats_unchanged_file _ _ {| added := 0; removed := 0 |});
      [apply NoDup_singleton | apply list_elem_of_singleton | |]; done. }
  cbv zeta. rewrite Heq. split_and!; [done | discriminate |].
  intros boxes [= <-]. split; [done|].
  intros Hin. repeat (apply elem_of_cons in Hin as [Hin|Hin]; [discriminate|]).
  by apply elem_of_nil in Hin.
Qed.

(** With changes present the loop runs as written: three of four changed
    lines added fills the first three boxes, and the removed line the rest. *)
Example calculateDiffstat_three_of_four :
  calculateDiffstat 4%float 3%float 1%float 5
  = ["added"; "added"; "added"; "removed"; "removed"].
Proof. vm_compute. reflexivity. Qed.

(** The thresholds are rounded: [1 - 4/5] is just below [1/5], so one
    removed line in five already marks the fourth box. *)
Example calculateDiffstat_four_of_five :
  calculateDiffstat 5%float 4%float 1%float 5
  = ["added"; "added"; "added"; "removed"; "removed"].
Proof. vm_compute. reflexivity. Qed.

End DiffstatFacts.

(** ** The authentication-session store *)

Section AuthFacts.
Import Auth.
Context `{Json}.

Lemma get_truthy_Some key h allSessions :
  secrets h !! key = Some allSessions → allSessions ≠ "" →
  get_truthy key h = Some allSessions.
Proof.
  intros Hget Hne. unfold get_truthy, Js.truthy. rewrite Hget.
  by rewrite bool_decide_false.
Qed.

Lemma get_truthy_empty key h :
  secrets h !! key = Some "" → get_truthy key h = None.
Proof. intros Hget. unfold get_truthy. by rewrite Hget. Qed.

(** C9: getSessions returns exactly the session list that JSON.parse
    reads from the string stored under the sessions secret key, and the
    empty list when nothing is stored under that key.  (The empty string
    is not a JSON text: JSON.parse throws on it.) *)
Theorem getSessions_reads_stored_list (h : Host) :
  JSON_parse "" = None →
  (secrets h !! SESSIONS_SECRET_KEY = None → getSessions h = Js.Returned []) ∧
  (∀ allSessions sessions,
     secrets h !! SESSIONS_SECRET_KEY = Some allSessions →
     JSON_parse allSessions = Some sessions →
     getSessions h = Js.Returned sessions).
Proof.
  intros Hempty. split.
  - intros Hnone. unfold getSessions, get_truthy. by rewrite Hnone.
  - intros allSessions sessions Hget Hparse.
    assert (allSessions ≠ "") as Hne by (intros ->; congruence).
    unfold getSessions. by rewrite (get_truthy_Some _ _ _ Hget Hne), Hparse.
Qed.

(** A stored empty string counts as nothing stored. *)
Lemma getSessions_empty_string (h : Host) :
  secrets h !! SESSIONS_SECRET_KEY = Some "" → getSessions h = Js.Returned [].
Proof. intros Hget. unfold getSessions. by rewrite get_truthy_empty. Qed.

(** Removing a session whose id is stored: the first session with that id
    leaves the list and is reported as removed. *)
Lemma removeSession_known_id (h : Host) allSessions sessions sessionId i session :
  secrets h !! SESSIONS_SECRET_KEY = Some allSessions → allSessions ≠ "" →
  JSON_parse allSessions = Some sessions →
  Js.findIndex (λ s, bool_decide (id s = sessionId)) sessions = Z.of_nat i →
  sessions !! i = Some session →
  removeSession sessionId h =
  (Js.Returned (),
   fire {| ev_added := []; ev_removed := [session]; ev_changed := [] |}
        (store SESSIONS_SECRET_KEY (JSON_stringify (Js.splice (Z.of_nat i) 1 sessions)) h)).
Proof.
  intros Hget Hne Hparse Hidx Hsession. unfold removeSession.
  rewrite (get_truthy_Some _ _ _ Hget Hne), Hparse, Hidx.
  unfold Js.at_index. rewrite bool_decide_true by lia.
  by rewrite Nat2Z.id, Hsession.
Qed.

(** C5: removeSession with a sessionId that matches no stored session
    should leave the stored list unchanged and fire no event.  The code
    fires no event, but [findIndex] answers -1 and [splice(-1, 1)] cuts
    the last session off the list that is stored back. *)
Theorem removeSession_unknown_id_drops_last (h : Host) allSessions sessions sessionId :
  secrets h !! SESSIONS_SECRET_KEY = Some allSessions → allSessions ≠ "" →
  JSON_parse allSessions = Some sessions →
  Forall (λ s, id s ≠ sessionId) sessions →
  removeSession sessionId h =
  (Js.Returned (), store SESSIONS_SECRET_KEY (JSON_stringify (removelast sessions)) h).
Proof.
  intros Hget Hne Hparse Hunknown. unfold removeSession.
  rewrite (get_truthy_Some _ _ _ Hget Hne), Hparse.
  assert (Js.findIndex (λ s, bool_decide (id s = sessionId)) sessions = (-1)%Z) as ->.
  { apply findIndex_none. eapply Forall_impl; [exact Hunknown|].
    intros s Hs. by apply bool_decide_eq_false. }
  by rewrite splice_minus_one.
Qed.

End AuthFacts.

(** A JSON codec that knows two documents: the empty list and the list
    holding one sample session. *)
Definition sampleSession : Auth.CodeStoryAuthenticationSession :=
  {| Auth.id := "7d0c"; Auth.accessToken := "at"; Auth.refreshToken := "rt";
     Auth.expiresIn := 300000;
     Auth.account := {| Auth.label := "Ada Lovelace"; Auth.account_id := "ada@example.org" |};
     Auth.scopes := [] |}.

Definition sampleJson : Auth.Json :=
  {| Auth.JSON_parse s :=
       if bool_decide (s = "[]") then Some []
       else if bool_decide (s = "[7d0c]") then Some [sampleSession]
       else None;
     Auth.JSON_stringify l :=
       match l with
       | [] => "[]"
       | _ => "[7d0c]"
       end |}.

Definition sampleHost : Auth.Host :=
  {| Auth.secrets := {[ Auth.SESSIONS_SECRET_KEY := "[7d0c]" ]}; Auth.fired := [] |}.

Lemma getSessions_reads_stored_list_sample :
  @Auth.JSON_parse sampleJson "" = None ∧
  @Auth.getSessions sampleJson sampleHost = Js.Returned [sampleSession].
Proof.
  split; [reflexivity|].
  apply (proj2 (@getSessions_reads_stored_list sampleJson sampleHost eq_refl) "[7d0c]");
    reflexivity.
Defined.

(** One session stored, and an id that is not its id: the stored list is
    empty afterwards, and nothing was fired. *)
Lemma removeSession_unknown_id_sample :
  @Auth.getSessions sampleJson sampleHost = Js.Returned [sampleSession] ∧
  ∃ h', @Auth.removeSession sampleJson "no-such-id" sampleHost = (Js.Returned (), h') ∧
        @Auth.getSessions sampleJson h' = Js.Returned [] ∧
        Auth.fired h' = [].
Proof.
  split; [reflexivity|]. eexists. split.
  - apply (@removeSession_unknown_id_drops_last sampleJson sampleHost "[7d0c]" [sampleSession]).
    + reflexivity.
    + discriminate.
    + reflexivity.
    + repeat constructor. discriminate.
  - split; reflexivity.
Defined.

(** ** The probe response model *)

Section ProbeFacts.
Import Probe.
Context `{Editor}.
Implicit Types (r : AideProbeResponseModel) (b incoming : IAideProbeBreakdownContent).
Implicit Types (os : list IAideProbeBreakdownContent) (o : nat).

Lemma find_None {A : Type} (p : A → bool) (l : list A) :
  Js.find p l = None ↔ Forall (λ x, p x = false) l.
Proof.
  induction l as [|x l IH]; simpl.
  - split; [constructor | done].
  - destruct (p x) eqn:Hx.
    + split; [done | intros Hall; inversion Hall; congruence].
    + rewrite IH. split; [by constructor | by inversion 1].
Qed.

Lemma find_Some {A : Type} (p : A → bool) (l : list A) x :
  Js.find p l = Some x → x ∈ l ∧ p x = true.
Proof.
  induction l as [|y l IH]; simpl; [done|].
  destruct (p y) eqn:Hy.
  - intros [= <-]. split; [left | done].
  - intros Hfind. destruct (IH Hfind). split; [by right | done].
Qed.

Lemma omap_lookup_total {A B : Type} (f : A → option B) (l : list A) i :
  (∀ x, x ∈ l → is_Some (f x)) → omap f l !! i = l !! i ≫= f.
Proof.
  revert i. induction l as [|x l IH]; intros i Hall; [done|].
  destruct (Hall x ltac:(left)) as [y Hy]. simpl. rewrite Hy.
  destruct i as [|i]; simpl; [done|].
  apply IH. intros z Hz. apply Hall. by right.
Qed.

Lemma omap_length_total {A B : Type} (f : A → option B) (l : list A) :
  (∀ x, x ∈ l → is_Some (f x)) → length (omap f l) = length l.
Proof.
  induction l as [|x l IH]; intros Hall; [done|].
  destruct (Hall x ltac:(left)) as [y Hy]. simpl. rewrite Hy. simpl.
  f_equal. apply IH. intros z Hz. apply Hall. by right.
Qed.

Lemma omap_ext_in {A B : Type} (f g : A → option B) (l : list A) :
  (∀ x, x ∈ l → f x = g x) → omap f l = omap g l.
Proof.
  induction l as [|x l IH]; intros Hext; [done|].
  assert (omap f l = omap g l) as Htail.
  { apply IH. intros z Hz. apply Hext. by right. }
  simpl. rewrite (Hext x ltac:(left)). destruct (g x); [f_equal|]; exact Htail.
Qed.

(** *** Go-to-definitions *)

Definition sameDefinition (g gtd : IAideProbeGoToDefinition) : Prop :=
  gtd_uri gtd = gtd_uri g ∧ gtd_name gtd = gtd_name g.

Lemma sameDefinition_test g gtd :
  equals (gtd_uri gtd) (gtd_uri g) && equals (gtd_name gtd) (gtd_name g) = true
  ↔ sameDefinition g gtd.
Proof.
  unfold equals, sameDefinition.
  rewrite andb_true_iff, !bool_decide_eq_true. done.
Qed.

Lemma applyGoToDefinition_known g r :
  (∃ gtd, gtd ∈ goToDefinitions r ∧ sameDefinition g gtd) →
  applyGoToDefinition g r = r.
Proof.
  intros (gtd & Hin & Hsame). unfold applyGoToDefinition.
  destruct (Js.find _ _) eqn:Hfind; [done|].
  apply find_None in Hfind. rewrite Forall_forall in Hfind.
  specialize (Hfind gtd Hin). apply sameDefinition_test in Hsame.
  congruence.
Qed.

Lemma applyGoToDefinition_new g r :
  (∀ gtd, gtd ∈ goToDefinitions r → ¬ sameDefinition g gtd) →
  applyGoToDefinition g r = with_goToDefinitions (goToDefinitions r ++ [g]) r.
Proof.
  intros Hnew. unfold applyGoToDefinition.
  destruct (Js.find _ _) as [gtd|] eqn:Hfind; [|done].
  apply find_Some in Hfind as [Hin Hsame].
  apply sameDefinition_test in Hsame. by destruct (Hnew gtd Hin).
Qed.

(** What [find] and [equals] make of a repeated item: a go-to-definition
    whose uri object, caches included, and name are those of a listed
    one leaves the response as it is, any other one is appended, and
    handing over the same item twice is handing it over once. *)
Lemma applyGoToDefinition_equal_objects g r :
  ((∃ gtd, gtd ∈ goToDefinitions r ∧ gtd_uri gtd = gtd_uri g ∧ gtd_name gtd = gtd_name g) →
   applyGoToDefinition g r = r) ∧
  ((∀ gtd, gtd ∈ goToDefinitions r →
           ¬ (gtd_uri gtd = gtd_uri g ∧ gtd_name gtd = gtd_name g)) →
   goToDefinitions (applyGoToDefinition g r) = goToDefinitions r ++ [g]) ∧
  applyGoToDefinition g (applyGoToDefinition g r) = applyGoToDefinition g r.
Proof.
  split_and!.
  - apply applyGoToDefinition_known.
  - intros Hnew. by rewrite (applyGoToDefinition_new g r Hnew).
  - apply applyGoToDefinition_known.
    destruct (Js.find (λ gtd, equals (gtd_uri gtd) (gtd_uri g)
                              && equals (gtd_name gtd) (gtd_name g))
                      (goToDefinitions r)) as [gtd|] eqn:Hfind.
    + apply find_Some in Hfind as [Hin Hsame]. apply sameDefinition_test in Hsame.
      exists gtd. split; [|done].
      rewrite applyGoToDefinition_known; [done | by exists gtd].
    + exists g. split; [|done].
      unfold applyGoToDefinition, goToDefinitions in *. rewrite Hfind. simpl.
      apply elem_of_app. right. by apply list_elem_of_singleton.
Qed.

(** The pair a go-to-definition is for: the uri its object denotes, and
    the name. *)
Definition target (g : IAideProbeGoToDefinition) : URI * string :=
  (components (gtd_uri g), gtd_name g).

(** C7: applyGoToDefinition with a go-to-definition whose uri and name
    are those of a stored definition should leave goToDefinitions
    unchanged.  The code looks the item up with [equals] on the uri
    objects, which compares their [_formatted] caches too: when these
    differ between the incoming item and every stored definition of its
    pair ([toString()] read on the uri object of one and not of the
    other), the item is appended, and the list holds the pair
    (uri, name) twice. *)
Theorem applyGoToDefinition_repeats_pair g r stored :
  stored ∈ goToDefinitions r →
  target stored = target g →
  (∀ gtd, gtd ∈ goToDefinitions r → target gtd = target g →
          _formatted (gtd_uri gtd) ≠ _formatted (gtd_uri g)) →
  goToDefinitions (applyGoToDefinition g r) = goToDefinitions r ++ [g] ∧
  ¬ NoDup (target <$> goToDefinitions (applyGoToDefinition g r)).
Proof.
  intros Hstored Htarget Hcache.
  assert (goToDefinitions (applyGoToDefinition g r) = goToDefinitions r ++ [g]) as Hpush.
  { rewrite applyGoToDefinition_new; [done|].
    intros gtd Hin [Huri Hname]. apply (Hcache gtd Hin).
    - unfold target. by rewrite Huri, Hname.
    - by rewrite Huri. }
  split; [done|]. rewrite Hpush, fmap_app. intros Hnodup.
  apply NoDup_app in Hnodup as (_ & Hdisjoint & _).
  apply (Hdisjoint (target g)).
  - rewrite <- Htarget. by apply list_elem_of_fmap_2.
  - simpl. by apply list_elem_of_singleton.
Qed.

(** *** Breakdowns *)

(** The pair a breakdown is filed under. *)
Definition symbol b : URI * string := (uri (reference b), name (reference b)).

(** A stored record after an incoming breakdown for the same key: each of
    the three texts is the incoming one when that is non-empty, and the
    stored one otherwise. *)
Definition merged incoming b : IAideProbeBreakdownContent :=
  {| reference := reference b;
     query := if nonEmpty (query incoming) then query incoming else query b;
     reason := if nonEmpty (reason incoming) then reason incoming else reason b;
     response := if nonEmpty (response incoming) then response incoming else response b |}.

(** The map and the array of a response agree: every object of the map is
    stored under its own key and listed in the array, every object of the
    array is the one the map holds for its key, and no object is listed
    twice. *)
Record Consistent r : Prop := {
  map_object : ∀ key o, _breakdownsBySymbol r !! key = Some o →
    ∃ b, objects r !! o = Some b ∧ symbolKey (reference b) = key ∧ o ∈ _breakdowns r;
  list_object : ∀ o, o ∈ _breakdowns r →
    ∃ b, objects r !! o = Some b ∧ _breakdownsBySymbol r !! symbolKey (reference b) = Some o;
  list_NoDup : NoDup (_breakdowns r)
}.

Lemma symbol_reference b b' : symbol b = symbol b' ↔ reference b = reference b'.
Proof.
  unfold symbol. destruct (reference b), (reference b'); simpl.
  split; intros [= -> ->]; done.
Qed.

Lemma symbol_symbolKey b b' :
  symbol b = symbol b' → symbolKey (reference b) = symbolKey (reference b').
Proof. intros Heq. apply symbol_reference in Heq. by rewrite Heq. Qed.

Lemma overwrite_lookup incoming o os o' :
  overwrite incoming o os !! o' =
  if decide (o = o') then merged incoming <$> os !! o' else os !! o'.
Proof.
  unfold overwrite, merged. destruct (decide (o = o')) as [<-|Hne].
  - destruct (nonEmpty (query incoming)), (nonEmpty (reason incoming)),
      (nonEmpty (response incoming));
      rewrite ?list_lookup_alter_eq; destruct (os !! o) as [[]|]; done.
  - destruct (nonEmpty (query incoming)), (nonEmpty (reason incoming)),
      (nonEmpty (response incoming));
      rewrite ?list_lookup_alter_ne by done; done.
Qed.

Lemma overwrite_lookup_Some incoming o os o' b :
  os !! o' = Some b →
  ∃ b', overwrite incoming o os !! o' = Some b' ∧ reference b' = reference b.
Proof.
  intros Hb. rewrite overwrite_lookup, Hb. case_decide; eauto.
Qed.

Lemma overwrite_lookup_inv incoming o os o' b' :
  overwrite incoming o os !! o' = Some b' →
  ∃ b, os !! o' = Some b ∧ reference b' = reference b.
Proof.
  rewrite overwrite_lookup. case_decide; [|eauto].
  destruct (os !! o') as [b|]; [|done]. intros [= <-]. eauto.
Qed.

Lemma Consistent_new : Consistent newResponse.
Proof.
  split; simpl.
  - intros key o Hkey. by rewrite lookup_empty in Hkey.
  - intros o Ho. by apply elem_of_nil in Ho.
  - constructor.
Qed.

(** With the key in the map, the array keeps its objects: the index found
    by [findIndex] already holds the object of the map. *)
Lemma applyBreakdown_known incoming r o :
  Consistent r →
  _breakdownsBySymbol r !! symbolKey (reference incoming) = Some o →
  applyBreakdown incoming r =
  with_breakdowns (overwrite incoming o (objects r)) (_breakdownsBySymbol r) (_breakdowns r) r.
Proof.
  intros Hr Hkey. unfold applyBreakdown. rewrite Hkey. cbv zeta. f_equal.
  case_bool_decide as Hindex; [|done].
  destruct (findIndex_found _ _ _ eq_refl Hindex) as (o' & Hlookup & Hsame & _).
  unfold Js.set_index. apply list_insert_id. rewrite Hlookup. f_equal.
  unfold sameSymbol in Hsame.
  destruct (overwrite incoming o (objects r) !! o') as [b'|] eqn:Hb'; [|done].
  apply andb_true_iff in Hsame as [Hname Huri].
  apply bool_decide_eq_true in Hname, Huri.
  apply overwrite_lookup_inv in Hb' as (b & Hb & Href).
  destruct (list_object r Hr o') as (b0 & Hb0 & Hmap).
  { apply list_elem_of_lookup. eauto. }
  assert (b0 = b) as -> by congruence.
  assert (reference b = reference incoming) as Heq.
  { rewrite <- Href. destruct (reference b'), (reference incoming); simpl in *; congruence. }
  rewrite Heq in Hmap. congruence.
Qed.

Lemma applyBreakdown_new incoming r :
  _breakdownsBySymbol r !! symbolKey (reference incoming) = None →
  applyBreakdown incoming r =
  with_breakdowns (objects r ++ [incoming])
                  (<[symbolKey (reference incoming) := length (objects r)]> (_breakdownsBySymbol r))
                  (_breakdowns r ++ [length (objects r)]) r.
Proof. intros Hkey. unfold applyBreakdown. by rewrite Hkey. Qed.

Lemma Consistent_applyBreakdown incoming r :
  Consistent r → Consistent (applyBreakdown incoming r).
Proof.
  intros Hr.
  destruct (_breakdownsBySymbol r !! symbolKey (reference incoming)) as [o|] eqn:Hkey.
  - rewrite (applyBreakdown_known _ _ _ Hr Hkey). split; simpl.
    + intros key o' Hmap. destruct (map_object r Hr key o' Hmap) as (b & Hb & Hk & Hin).
      destruct (overwrite_lookup_Some incoming o _ _ _ Hb) as (b' & Hb' & Href).
      exists b'. by rewrite Href.
    + intros o' Hin. destruct (list_object r Hr o' Hin) as (b & Hb & Hmap).
      destruct (overwrite_lookup_Some incoming o _ _ _ Hb) as (b' & Hb' & Href).
      exists b'. by rewrite Href.
    + apply (list_NoDup r Hr).
  - rewrite (applyBreakdown_new _ _ Hkey). split; simpl.
    + intros key o' Hmap. destruct (decide (symbolKey (reference incoming) = key)) as [<-|Hne].
      * rewrite lookup_insert_eq in Hmap. injection Hmap as <-.
        exists incoming. split_and!; [|done|].
        -- by rewrite lookup_app_r, Nat.sub_diag.
        -- apply elem_of_app. right. by apply list_elem_of_singleton.
      * rewrite lookup_insert_ne in Hmap by done.
        destruct (map_object r Hr key o' Hmap) as (b & Hb & Hk & Hin).
        exists b. split_and!; [|done|].
        -- by apply lookup_app_l_Some.
        -- apply elem_of_app. by left.
    + intros o' Hin. apply elem_of_app in Hin as [Hin|Hin].
      * destruct (list_object r Hr o' Hin) as (b & Hb & Hmap).
        exists b. split; [by apply lookup_app_l_Some|].
        rewrite lookup_insert_ne; [done|]. intros Heq. rewrite <- Heq in Hmap. congruence.
      * apply list_elem_of_singleton in Hin as ->. exists incoming.
        split; [by rewrite lookup_app_r, Nat.sub_diag | by rewrite lookup_insert_eq].
    + apply NoDup_app. split_and!; [apply (list_NoDup r Hr) | | apply NoDup_singleton].
      intros o' Hin Hlast. apply list_elem_of_singleton in Hlast as ->.
      destruct (list_object r Hr _ Hin) as (b & Hb & _).
      apply lookup_lt_Some in Hb. lia.
Qed.

Lemma Consistent_history (history : list IAideProbeBreakdownContent) :
  Consistent (foldl (λ r incoming, applyBreakdown incoming r) newResponse history).
Proof.
  induction history as [|incoming history IH] using rev_ind; [apply Consistent_new|].
  rewrite foldl_snoc. by apply Consistent_applyBreakdown.
Qed.

Lemma breakdowns_lookup r i :
  Consistent r → breakdowns r !! i = _breakdowns r !! i ≫= (λ o, objects r !! o).
Proof.
  intros Hr. apply omap_lookup_total. intros o Hin.
  destruct (list_object r Hr o Hin) as (b & Hb & _). eauto.
Qed.

Lemma breakdowns_length r : Consistent r → length (breakdowns r) = length (_breakdowns r).
Proof.
  intros Hr. apply omap_length_total. intros o Hin.
  destruct (list_object r Hr o Hin) as (b & Hb & _). eauto.
Qed.

(** The key of a breakdown is in the map exactly when a listed record
    carries that key. *)
Lemma key_present_iff r key :
  Consistent r →
  is_Some (_breakdownsBySymbol r !! key) ↔
  ∃ i b, breakdowns r !! i = Some b ∧ symbolKey (reference b) = key.
Proof.
  intros Hr. split.
  - intros [o Ho]. destruct (map_object r Hr key o Ho) as (b & Hb & Hk & Hin).
    apply list_elem_of_lookup in Hin as [i Hi]. exists i, b.
    by rewrite breakdowns_lookup, Hi.
  - intros (i & b & Hb & Hk). rewrite breakdowns_lookup in Hb by done.
    destruct (_breakdowns r !! i) as [o|] eqn:Hi; [|done]. simpl in Hb.
    destruct (list_object r Hr o) as (b0 & Hb0 & Hmap).
    { apply list_elem_of_lookup. eauto. }
    assert (b0 = b) as -> by congruence. rewrite Hk in Hmap. eauto.
Qed.

Lemma breakdowns_NoDup_keys r :
  Consistent r → NoDup ((λ b, symbolKey (reference b)) <$> breakdowns r).
Proof.
  intros Hr. apply NoDup_alt. intros i j key Hi Hj.
  rewrite list_lookup_fmap, breakdowns_lookup in Hi, Hj by done.
  destruct (_breakdowns r !! i) as [oi|] eqn:Hoi; [|done].
  destruct (_breakdowns r !! j) as [oj|] eqn:Hoj; [|done]. simpl in Hi, Hj.
  destruct (list_object r Hr oi) as (bi & Hbi & Hmi); [apply list_elem_of_lookup; eauto|].
  destruct (list_object r Hr oj) as (bj & Hbj & Hmj); [apply list_elem_of_lookup; eauto|].
  rewrite Hbi in Hi. rewrite Hbj in Hj. simpl in Hi, Hj.
  injection Hi as Hi. injection Hj as Hj. rewrite Hi in Hmi. rewrite Hj in Hmj.
  assert (oi = oj) as -> by congruence.
  by apply (NoDup_lookup _ _ _ _ (list_NoDup r Hr) Hoi Hoj).
Qed.

Lemma breakdowns_NoDup_symbols r :
  Consistent r → NoDup (symbol <$> breakdowns r).
Proof.
  intros Hr. pose proof (breakdowns_NoDup_keys r Hr) as Hkeys.
  apply NoDup_alt. intros i j s Hi Hj.
  rewrite list_lookup_fmap in Hi, Hj.
  destruct (breakdowns r !! i) as [bi|] eqn:Hbi; [|done].
  destruct (breakdowns r !! j) as [bj|] eqn:Hbj; [|done]. simpl in Hi, Hj.
  assert (symbol bi = symbol bj) as Heq by congruence.
  apply symbol_symbolKey in Heq.
  apply (proj1 (NoDup_alt _) Hkeys i j (symbolKey (reference bi)));
    rewrite list_lookup_fmap; [by rewrite Hbi | by rewrite Hbj, Heq].
Qed.

(** The update in place, seen through the getter. *)
Lemma breakdowns_known incoming r i existing :
  Consistent r →
  breakdowns r !! i = Some existing →
  symbolKey (reference existing) = symbolKey (reference incoming) →
  breakdowns (applyBreakdown incoming r) = <[i := merged incoming existing]> (breakdowns r).
Proof.
  intros Hr Hi Hkey.
  pose proof Hi as Hi'. rewrite breakdowns_lookup in Hi' by done.
  destruct (_breakdowns r !! i) as [o|] eqn:Ho; [|done]. simpl in Hi'.
  destruct (list_object r Hr o) as (b0 & Hb0 & Hmap); [apply list_elem_of_lookup; eauto|].
  assert (b0 = existing) as -> by congruence. rewrite Hkey in Hmap.
  pose proof (Consistent_applyBreakdown incoming r Hr) as Hr'.
  apply list_eq. intros j. rewrite breakdowns_lookup by done.
  rewrite (applyBreakdown_known _ _ _ Hr Hmap). simpl.
  destruct (decide (i = j)) as [<-|Hne].
  - rewrite list_lookup_insert_eq by (by apply lookup_lt_Some in Hi).
    rewrite Ho. simpl. rewrite overwrite_lookup, decide_True by done. by rewrite Hb0.
  - rewrite list_lookup_insert_ne by done. rewrite breakdowns_lookup by done.
    destruct (_breakdowns r !! j) as [o'|] eqn:Ho'; [|done]. simpl.
    rewrite overwrite_lookup, decide_False; [done|].
    intros <-. apply Hne. by apply (NoDup_lookup _ _ _ _ (list_NoDup r Hr) Ho Ho').
Qed.

Lemma breakdowns_new incoming r :
  Consistent r →
  (∀ i b, breakdowns r !! i = Some b →
          symbolKey (reference b) ≠ symbolKey (reference incoming)) →
  breakdowns (applyBreakdown incoming r) = breakdowns r ++ [incoming].
Proof.
  intros Hr Hnew.
  assert (_breakdownsBySymbol r !! symbolKey (reference incoming) = None) as Hkey.
  { apply eq_None_not_Some. intros Hsome.
    apply (key_present_iff r _ Hr) in Hsome as (i & b & Hb & Hk). by apply (Hnew i b). }
  rewrite (applyBreakdown_new _ _ Hkey). unfold breakdowns. simpl.
  rewrite omap_app. simpl. rewrite lookup_app_r, Nat.sub_diag by done. simpl.
  f_equal. apply omap_ext_in. intros o Hin.
  destruct (list_object r Hr o Hin) as (b & Hb & _).
  by rewrite (lookup_app_l_Some _ _ _ _ Hb), Hb.
Qed.

(** C2: after any sequence of applyBreakdown calls the breakdowns list
    holds at most one record per (reference.uri, reference.name) pair.  A
    further breakdown whose symbol key (the key of _breakdownsBySymbol) is
    carried by a listed record updates that record in place, overwriting
    its query, reason and response only where the incoming text is
    non-empty, and the list keeps its length; a breakdown with a new
    symbol key is appended. *)
Theorem applyBreakdown_one_record_per_symbol
    (history : list IAideProbeBreakdownContent) (incoming : IAideProbeBreakdownContent) :
  let r := foldl (λ r incoming, applyBreakdown incoming r) newResponse history in
  NoDup (symbol <$> breakdowns r) ∧
  (∀ i existing,
     breakdowns r !! i = Some existing →
     symbolKey (reference existing) = symbolKey (reference incoming) →
     breakdowns (applyBreakdown incoming r) = <[i := merged incoming existing]> (breakdowns r) ∧
     length (breakdowns (applyBreakdown incoming r)) = length (breakdowns r)) ∧
  ((∀ i b, breakdowns r !! i = Some b →
           symbolKey (reference b) ≠ symbolKey (reference incoming)) →
   breakdowns (applyBreakdown incoming r) = breakdowns r ++ [incoming]).
Proof.
  intros r. pose proof (Consistent_history history) as Hr. fold r in Hr.
  split_and!.
  - by apply breakdowns_NoDup_symbols.
  - intros i existing Hi Hkey.
    rewrite (breakdowns_known _ _ _ _ Hr Hi Hkey). by rewrite length_insert.
  - by apply breakdowns_new.
Qed.

(** A breakdown for a pair that is already listed is never appended: equal
    pairs have equal keys. *)
Lemma breakdowns_same_symbol incoming r i existing :
  Consistent r →
  breakdowns r !! i = Some existing → symbol existing = symbol incoming →
  breakdowns (applyBreakdown incoming r) = <[i := merged incoming existing]> (breakdowns r).
Proof.
  intros Hr Hi Hsym. apply breakdowns_known; [done..|]. by apply symbol_symbolKey.
Qed.

(** *** The probe model *)

(** The five things a response offers to its readers. *)
Inductive Collection : Type :=
| Result | Breakdowns | GoToDefinitions | CodeEditsPreview | CodeEdits.

(** Two responses show the same contents in a collection. *)
Definition same_in (c : Collection) r r' : Prop :=
  match c with
  | Result => result r' = result r
  | Breakdowns => breakdowns r' = breakdowns r
  | GoToDefinitions => goToDefinitions r' = goToDefinitions r
  | CodeEditsPreview => codeEditsPreview r' = codeEditsPreview r
  | CodeEdits => codeEdits r' = codeEdits r
  end.




Lemma applyBreakdown_elsewhere incoming r c :
  c ≠ Breakdowns → same_in c r (applyBreakdown incoming r).
Proof.
  intros Hc. unfold applyBreakdown.
  destruct (_breakdownsBySymbol r !! _); destruct c; done.
Qed.

Lemma applyGoToDefinition_elsewhere g r c :
  c ≠ GoToDefinitions → same_in c r (applyGoToDefinition g r).
Proof.
  intros Hc. unfold applyGoToDefinition. destruct (Js.find _ _); destruct c; done.
Qed.

Lemma applyCodeEditPreview_elsewhere p r c :
  c ≠ CodeEditsPreview → same_in c r (applyCodeEditPreview p r).
Proof.
  intros Hc. unfold applyCodeEditPreview.
  destruct (_codeEditsPreviewBySymbol r !! _); destruct c; done.
Qed.


Lemma acceptResponseProgress_uninitialised progress m :
  _request m = None →
  acceptResponseProgress progress m = Js.Threw "Request not yet initialised".
Proof. intros Hreq. unfold acceptResponseProgress. by rewrite Hreq. Qed.

(** The other progress items leave the breakdown records alone, so the
    agreement of map and array survives whatever the model accepts. *)
Lemma Consistent_same_records r r' :
  objects r' = objects r → _breakdownsBySymbol r' = _breakdownsBySymbol r →
  _breakdowns r' = _breakdowns r → Consistent r → Consistent r'.
Proof.
  intros Hobjects Hmap Hlist [Hm Hl Hnd].
  split; rewrite ?Hobjects, ?Hmap, ?Hlist; done.
Qed.













End ProbeFacts.

(** A small editor for examples: a URI is its own text. *)
#[local] Instance sampleEditor : Probe.Editor :=
  {| Probe.URI := string; Probe.uri_toString u := u; Probe.Detail := string |}.

Definition sampleBreakdown (u n : string) (q a : option string) :
    @Probe.IAideProbeBreakdownContent sampleEditor :=
  {| Probe.reference := {| Probe.uri := u; Probe.name := n |};
     Probe.query := (λ v, {| Probe.value := v |}) <$> q;
     Probe.reason := None;
     Probe.response := (λ v, {| Probe.value := v |}) <$> a |}.

(** Two symbols reported, then the first one again with an answer and an
    empty query: the first record takes the answer and keeps its query,
    and the list keeps its two records. *)
Lemma applyBreakdown_one_record_per_symbol_sample :
  let first := sampleBreakdown "file:///src/a.ts" "parse" (Some "what does it do?") None in
  let second := sampleBreakdown "file:///src/b.ts" "print" (Some "and this?") None in
  let again := sampleBreakdown "file:///src/a.ts" "parse" (Some "") (Some "it parses") in
  Probe.breakdowns
    (Probe.applyBreakdown again
       (Probe.applyBreakdown second (Probe.applyBreakdown first Probe.newResponse)))
  = [sampleBreakdown "file:///src/a.ts" "parse" (Some "what does it do?") (Some "it parses");
     second].
Proof.
  intros first second again.
  destruct (@applyBreakdown_one_record_per_symbol sampleEditor [first; second] again)
    as (_ & Hknown & _).
  destruct (Hknown 0 first eq_refl eq_refl) as [Hupdate _].
  simpl in Hupdate. rewrite Hupdate. reflexivity.
Defined.

(** The sample editor's keys are not injective: a breakdown for the pair
    ("a", "b:c") and one for ("a:b", "c") share the key "a:b:c", so the
    second one is merged into the record of the first. *)
Example applyBreakdown_shared_key :
  let first := sampleBreakdown "a" "b:c" (Some "one") None in
  let other := sampleBreakdown "a:b" "c" (Some "two") None in
  Probe.breakdowns (Probe.applyBreakdown other (Probe.applyBreakdown first Probe.newResponse))
  = [sampleBreakdown "a" "b:c" (Some "two") None].
Proof. reflexivity. Qed.

(** A URI object as it is first built: both caches null. *)
Definition sampleUri (u : string) : @Probe.UriObject sampleEditor :=
  {| Probe.components := u; Probe._formatted := None; Probe._fsPath := None |}.

Definition sampleDefinition (u n d : string) : @Probe.IAideProbeGoToDefinition sampleEditor :=
  {| Probe.gtd_uri := sampleUri u; Probe.gtd_name := n; Probe.gtd_detail := d |}.

Lemma applyGoToDefinition_equal_objects_sample :
  let stored := sampleDefinition "file:///src/a.ts" "parse" "line 3" in
  let again := sampleDefinition "file:///src/a.ts" "parse" "line 9" in
  let r := Probe.applyGoToDefinition stored Probe.newResponse in
  Probe.goToDefinitions r = [stored] ∧
  Probe.applyGoToDefinition again r = r.
Proof.
  intros stored again r. split; [reflexivity|].
  apply (proj1 (@applyGoToDefinition_equal_objects sampleEditor again r)).
  exists stored. split_and!; [|reflexivity..].
  apply list_elem_of_singleton. reflexivity.
Defined.

(** A definition of parse in a.ts is stored, its uri object with the text
    already read; a second one arrives for the same uri and name, its uri
    object fresh.  Both are listed. *)
Definition sampleDefinitionRead (u n d : string) :
    @Probe.IAideProbeGoToDefinition sampleEditor :=
  {| Probe.gtd_uri := Probe.formatted (sampleUri u); Probe.gtd_name := n;
     Probe.gtd_detail := d |}.

Lemma applyGoToDefinition_repeats_pair_sample :
  let stored := sampleDefinitionRead "file:///src/a.ts" "parse" "line 3" in
  let again := sampleDefinition "file:///src/a.ts" "parse" "line 9" in
  let r := Probe.applyGoToDefinition stored Probe.newResponse in
  Probe.components (Probe.gtd_uri stored) = Probe.components (Probe.gtd_uri again) ∧
  Probe.gtd_name stored = Probe.gtd_name again ∧
  Probe.goToDefinitions r = [stored] ∧
  Probe.goToDefinitions (Probe.applyGoToDefinition again r) = [stored; again].
Proof.
  intros stored again r. split_and!; [reflexivity..|].
  apply (@applyGoToDefinition_repeats_pair sampleEditor again r stored).
  - apply list_elem_of_singleton. reflexivity.
  - reflexivity.
  - intros gtd Hin _. apply list_elem_of_singleton in Hin as ->. discriminate.
Defined.

Definition sampleModel : @Probe.AideProbeModel sampleEditor :=
  {| Probe._request := Some {| Probe.request_sessionId := "s1"; Probe.message := "explain";
                               Probe.editMode := false |};
     Probe._response := None; Probe._isComplete := false; Probe._isTailing := false;
     Probe._sessionId := "s1"; Probe.emitted := [] |}.





(** ** The semantic search command *)

Section SearchFacts.
Import Search.
Context `{Sidecar}.

(** C10: the codestory.semanticSearch command forwards to the sidecar:
    for every prompt it asks SideCarClient.getSemanticSearchResult once,
    with that prompt and the current repository reference, and what it
    answers is what that call answered -- the same results in the same
    order, nothing added, dropped or changed. *)
Theorem semanticSearch_forwards (a : Activation) (prompt : string) :
  snd (semanticSearch a prompt) = getSemanticSearchResult prompt (currentRepo a) ∧
  (∀ results,
     getSemanticSearchResult prompt (currentRepo a) = Js.Returned results →
     snd (semanticSearch a prompt) = Js.Returned results) ∧
  omap (λ e, match e with
             | sidecar_getSemanticSearchResult p repo => Some (p, repo)
             | _ => None
             end) (fst (semanticSearch a prompt))
  = [(prompt, currentRepo a)].
Proof.
  split_and!; [done | by intros results <- |].
  unfold semanticSearch. simpl. by destruct (postHogClient a).
Qed.

End SearchFacts.

(** A sidecar that answers every prompt with two hits naming it. *)
#[local] Instance sampleSidecar : Search.Sidecar :=
  {| Search.CodeSymbolInformationEmbeddings := string;
     Search.RepoRef := string;
     Search.getSemanticSearchResult prompt repo :=
       Js.Returned [repo +:+ "/b.ts#" +:+ prompt; repo +:+ "/a.ts#" +:+ prompt] |}.

Lemma semanticSearch_forwards_sample :
  snd (Search.semanticSearch
         {| Search.currentRepo := "local/app"; Search.repoName := "app";
            Search.repoHash := "c0ffee"; Search.postHogClient := true;
            Search.uniqueId := "u-1" |} "parse")
  = Js.Returned ["local/app/b.ts#parse"; "local/app/a.ts#parse"].
Proof.
  apply (proj1 (proj2 (@semanticSearch_forwards sampleSidecar _ "parse"))). reflexivity.
Defined.

(** ** The agent session provider *)

Section AgentFacts.
Import Agent.
Context `{Vocabulary} `{!Collaborators}.
Implicit Types (m : Machine) (request : EditedCodeStreamingRequest) (w : World).
Implicit Types (a : Accumulator) (processor : Processor) (lines : list AnswerStreamLine).

(** Modelled from the spec: the accumulator is a line accumulator.  It
    holds a queue of complete lines, [buffered]; [getLine] hands out the
    head of the queue, or null on an empty queue, which it leaves as it
    is; a new accumulator has no line; and appending the empty text
    changes nothing. *)
Class LineQueue : Type := {
  buffered : Accumulator → list AnswerStreamLine;
  buffered_new : buffered newAccumulator = [];
  getLine_head : ∀ a, (getLine a).1 = head (buffered a);
  getLine_tail : ∀ a, buffered (getLine a).2 = tail (buffered a);
  getLine_idle : ∀ a, buffered a = [] → (getLine a).2 = a;
  addDelta_empty : ∀ a, addDelta "" a = a
}.

Context `{!LineQueue}.

(** The accumulator after [n] calls of [getLine]. *)
Fixpoint pump (n : nat) a : Accumulator :=
  match n with
  | 0 => a
  | S n => pump n (getLine a).2
  end.

(** The accumulator once the loop has seen null. *)
Definition drained a : Accumulator := pump (S (length (buffered a))) a.

(** The stream processor and the world after the lines went through
    [processLine], first line first. *)
Definition feed lines (pw : Processor * World) : Processor * World :=
  foldl (λ pw line, processLine line pw.1 pw.2) pw lines.



Lemma drained_idle a : buffered a = [] → drained a = a.
Proof. intros Hidle. unfold drained. rewrite Hidle. simpl. by apply getLine_idle. Qed.

(** With more fuel than buffered lines the loop ends, having passed every
    buffered line to [processLine] once, in the order of the queue. *)
Lemma drain_enough lines a processor w fuel :
  buffered a = lines → length lines < fuel →
  drain fuel {| answerSplitter := a; streamProcessor := processor |} w =
  Some ({| answerSplitter := drained a; streamProcessor := (feed lines (processor, w)).1 |},
        (feed lines (processor, w)).2).
Proof.
  revert a processor w fuel.
  induction lines as [|line lines IH]; intros a processor w fuel Hlines Hfuel;
    (destruct fuel as [|fuel]; [simpl in Hfuel; lia|]); simpl;
    pose proof (getLine_head a) as Hhead; pose proof (getLine_tail a) as Htail;
    rewrite Hlines in Hhead, Htail; unfold drained; rewrite Hlines; simpl;
    destruct (getLine a) as [currentLine a']; simpl in *; subst currentLine.
  - done.
  - destruct (processLine line processor w) as [processor' w'] eqn:Hprocess.
    rewrite (IH a' processor' w' fuel Htail) by lia.
    unfold drained. by rewrite Htail.
Qed.

(** Whenever the loop ends, nothing is left in the queue. *)
Lemma drain_Some_idle fuel (editsManager editsManager' : EditsManager) w w' :
  drain fuel editsManager w = Some (editsManager', w') →
  buffered (answerSplitter editsManager') = [].
Proof.
  revert editsManager w. induction fuel as [|fuel IH]; intros editsManager w; simpl; [done|].
  pose proof (getLine_head (answerSplitter editsManager)) as Hhead.
  pose proof (getLine_tail (answerSplitter editsManager)) as Htail.
  destruct (getLine (answerSplitter editsManager)) as [[line|] a']; simpl in *.
  - destruct (processLine line (streamProcessor editsManager) w). apply IH.
  - intros [= <- <-]. simpl. rewrite Htail.
    by destruct (buffered (answerSplitter editsManager)).
Qed.

(** *** Reachable machines *)

(** The machines the provider can be in: the one its constructor leaves,
    those after an operation, and those after the world changed under
    it. *)
Inductive reachable : Machine → Prop :=
| reachable_construct repo projectLabels directory timer w :
    reachable (construct repo projectLabels directory timer w)
| reachable_run op m m' : reachable m → run op m = Some m' → reachable m'
| reachable_world m w : reachable m → reachable (set_world w m).

(** Between two requests no entry of the edits map holds a line back. *)
Definition Idle m : Prop :=
  ∀ id editsManager,
    editsMap (provider m) !! id = Some editsManager →
    buffered (answerSplitter editsManager) = [].

Lemma generateResponse_provider sessionId event responseStream token m :
  let p' := provider (generateResponse sessionId event responseStream token m) in
  editsMap p' = editsMap (provider m) ∧ limiter p' = limiter (provider m).
Proof.
  unfold generateResponse. destruct (editorUrl (provider m)) as [url|]; [|done].
  destruct (Js.truthy url); [|done]. by destruct (mode event).
Qed.

Lemma processEvent_provider event m :
  let p' := provider (processEvent event m) in
  editsMap p' = editsMap (provider m) ∧ limiter p' = limiter (provider m).
Proof.
  unfold processEvent. destruct (sessionId (provider m)) as [session|]; [|done].
  destruct (Js.truthy session); [|done]. simpl.
  destruct (initResponse session) as [[stream token]|]; [|done]. simpl.
  apply generateResponse_provider.
Qed.

Lemma provideEditStreamed_limiter fuel request m outcome m' :
  provideEditStreamed fuel request m = Some (outcome, m') →
  limiter (provider m') = limiter (provider m).
Proof.
  unfold provideEditStreamed.
  destruct (negb (apply_directly request) && _); [by intros [= <- <-]|].
  destruct (event request) as [| |delta].
  - destruct (openTextDocument _ _); by intros [= <- <-].
  - destruct (editsMap (provider m) !! _) as [editsManager|]; [|by intros [= <- <-]].
    destruct (drain _ _ _) as [[editsManager' w]|]; [|done].
    destruct (cleanup _ _). by intros [= <- <-].
  - destruct (Js.truthy delta); [|by intros [= <- <-]].
    destruct (editsMap (provider m) !! _) as [editsManager|]; [|by intros [= <- <-]].
    destruct (drain _ _ _) as [[editsManager' w]|]; [|done]. by intros [= <- <-].
Qed.

Lemma provideEditStreamed_Idle fuel request m outcome m' :
  Idle m → provideEditStreamed fuel request m = Some (outcome, m') → Idle m'.
Proof.
  intros Hidle. unfold provideEditStreamed.
  destruct (negb (apply_directly request) && _); [by intros [= <- <-]|].
  destruct (event request) as [| |delta].
  - destruct (openTextDocument _ _); [|by intros [= <- <-]].
    intros [= <- <-] id editsManager. simpl.
    destruct (decide (edit_request_id request = id)) as [<-|Hne].
    + rewrite lookup_insert_eq. intros [= <-]. apply buffered_new.
    + rewrite lookup_insert_ne by done. apply Hidle.
  - destruct (editsMap (provider m) !! _) as [editsManager|]; [|by intros [= <- <-]].
    destruct (drain _ _ _) as [[editsManager' w]|]; [|done].
    destruct (cleanup _ _). intros [= <- <-] id manager. simpl.
    intros Hlookup. apply lookup_delete_Some in Hlookup as [_ Hlookup]. by eapply Hidle.
  - destruct (Js.truthy delta); [|by intros [= <- <-]].
    destruct (editsMap (provider m) !! _) as [editsManager|]; [|by intros [= <- <-]].
    destruct (drain _ _ _) as [[editsManager' w]|] eqn:Hdrain; [|done].
    intros [= <- <-] id manager. simpl.
    destruct (decide (edit_request_id request = id)) as [<-|Hne].
    + rewrite lookup_insert_eq. intros [= <-]. by eapply drain_Some_idle.
    + rewrite lookup_insert_ne by done. apply Hidle.
Qed.

Lemma run_Idle op m m' : Idle m → run op m = Some m' → Idle m'.
Proof.
  intros Hidle.
  destruct op as [port|events|fuel request|edits|session|event|event
                 |session event responseStream token|]; simpl.
  - intros [= <-]. by destruct port.
  - by intros [= <-].
  - destruct (provideEditStreamed fuel request m) as [[outcome m'']|] eqn:Hrun; [|done].
    intros [= <-]. by eapply provideEditStreamed_Idle.
  - intros [= <-]. unfold provideEdit. destruct (edits_apply_directly edits); [done|].
    by destruct (openResponseStream (provider m)).
  - by intros [= <-].
  - intros [= <-]. unfold handleEvent. by destruct (_ && _).
  - intros [= <-]. intros id editsManager.
    rewrite (proj1 (processEvent_provider event m)). apply Hidle.
  - intros [= <-]. intros id editsManager.
    rewrite (proj1 (generateResponse_provider session event responseStream token m)).
    apply Hidle.
  - by intros [= <-].
Qed.

Lemma reachable_Idle m : reachable m → Idle m.
Proof.
  induction 1 as [repo projectLabels directory timer w|op m m' _ IH Hrun|m w _ IH].
  - intros id editsManager. simpl. by rewrite lookup_empty.
  - by eapply run_Idle.
  - exact IH.
Qed.

(** *** Streamed edits *)

Lemma gate_open request m :
  apply_directly request = true ∨ is_Some (openResponseStream (provider m)) →
  negb (apply_directly request)
  && negb (bool_decide (is_Some (openResponseStream (provider m)))) = false.
Proof.
  intros [->|Hopen]; [done|].
  rewrite (bool_decide_true _ Hopen). by destruct (apply_directly request).
Qed.

(** C3: a request with apply_directly false, arriving while no response
    stream is open, is dropped: provideEditStreamed answers
    { fs_file_path: '', success: false }, logs the condition, and changes
    neither the edits map (nor any other field of the provider) nor any
    document. *)
Theorem provideEditStreamed_drops_without_stream fuel request m :
  apply_directly request = false →
  openResponseStream (provider m) = None →
  ∃ m',
    provideEditStreamed fuel request m =
    Some (Js.Returned {| response_fs_file_path := ""; success := false |}, m') ∧
    effects m' =
      effects m ++ [console_log [text "editing_streamed::no_open_response_stream"]] ∧
    editsMap (provider m') = editsMap (provider m) ∧
    provider m' = provider m ∧
    world m' = world m.
Proof.
  intros Hdirect Hstream. unfold provideEditStreamed. rewrite Hdirect, Hstream.
  rewrite bool_decide_false by (by intros [? ?]). simpl.
  eexists. split; [reflexivity|]. done.
Qed.

Lemma provideEditStreamed_Start fuel request m document :
  apply_directly request = true ∨ is_Some (openResponseStream (provider m)) →
  event request = Start →
  openTextDocument (fs_file_path request) (world m) = Some document →
  ∃ m',
    provideEditStreamed fuel request m = Some (Js.Returned accepted, m') ∧
    editsMap (provider m') =
      <[edit_request_id request :=
          {| answerSplitter := newAccumulator;
             streamProcessor :=
               newProcessor {| sp_responseStream := openResponseStream (provider m);
                               sp_documentLines := splitLines document;
                               sp_uri := fs_file_path request;
                               sp_range := range request;
                               sp_applyDirectly := apply_directly request;
                               sp_uniqueId := editCounter (provider m) |} |}]>
        (editsMap (provider m)) ∧
    world m' = world m.
Proof.
  intros Hgate Hevent Hopen. unfold provideEditStreamed.
  rewrite (gate_open _ _ Hgate), Hevent, Hopen.
  eexists. split; [reflexivity|]. done.
Qed.


(** A delta whose text is empty is skipped; on an idle entry that is what
    appending it and draining comes to. *)
Lemma provideEditStreamed_Delta_empty fuel request m :
  apply_directly request = true ∨ is_Some (openResponseStream (provider m)) →
  event request = Delta "" →
  provideEditStreamed fuel request m = Some (Js.Returned accepted, m).
Proof.
  intros Hgate Hevent. unfold provideEditStreamed.
  by rewrite (gate_open _ _ Hgate), Hevent.
Qed.

Lemma provideEditStreamed_Delta_unknown fuel request m delta :
  apply_directly request = true ∨ is_Some (openResponseStream (provider m)) →
  event request = Delta delta →
  editsMap (provider m) !! edit_request_id request = None →
  provideEditStreamed fuel request m = Some (Js.Returned accepted, m).
Proof.
  intros Hgate Hevent Hentry. unfold provideEditStreamed.
  rewrite (gate_open _ _ Hgate), Hevent, Hentry. by destruct (Js.truthy delta).
Qed.

Lemma provideEditStreamed_End fuel request m editsManager :
  apply_directly request = true ∨ is_Some (openResponseStream (provider m)) →
  event request = End →
  editsMap (provider m) !! edit_request_id request = Some editsManager →
  let fed := feed (buffered (answerSplitter editsManager))
                  (streamProcessor editsManager, world m) in
  length (buffered (answerSplitter editsManager)) < fuel →
  ∃ m',
    provideEditStreamed fuel request m = Some (Js.Returned accepted, m') ∧
    world m' = save (fs_file_path request) (cleanup fed.1 fed.2).2 ∧
    editsMap (provider m') = delete (edit_request_id request) (editsMap (provider m)) ∧
    editCounter (provider m') = editCounter (provider m) + 1 ∧
    effects m' =
      effects m ++ [console_log [text "provideEditsStreamed::finished";
                                 text (fs_file_path request)]].
Proof.
  intros Hgate Hevent Hentry fed Hfuel. unfold provideEditStreamed.
  rewrite (gate_open _ _ Hgate), Hevent, Hentry.
  destruct editsManager as [a processor]. simpl in *.
  rewrite (drain_enough (buffered a) a _ _ fuel eq_refl Hfuel). simpl.
  fold fed. destruct (cleanup fed.1 fed.2) as [processor' w'] eqn:Hcleanup. simpl.
  eexists. split; [reflexivity|]. done.
Qed.

(** An End for an id that has no entry fails on the missing entry, and
    nothing has changed by then. *)
Lemma provideEditStreamed_End_unknown fuel request m :
  apply_directly request = true ∨ is_Some (openResponseStream (provider m)) →
  event request = End →
  editsMap (provider m) !! edit_request_id request = None →
  provideEditStreamed fuel request m = Some (Js.Threw "TypeError", m).
Proof.
  intros Hgate Hevent Hentry. unfold provideEditStreamed.
  by rewrite (gate_open _ _ Hgate), Hevent, Hentry.
Qed.


(** *** The limiter *)

(** The capacities of the limiters built, in order. *)
Definition limitersBuilt (es : list Effect) : list nat :=
  omap (λ e, match e with built (LimiterOf capacity) => Some capacity | _ => None end) es.

Lemma limitersBuilt_app es es' :
  limitersBuilt (es ++ es') = limitersBuilt es ++ limitersBuilt es'.
Proof. apply omap_app. Qed.

Lemma limitersBuilt_calls {A : Type} (f : A → Call) (l : list A) :
  limitersBuilt ((λ x, called (f x)) <$> l) = [].
Proof. induction l as [|x l IH]; [done | exact IH]. Qed.

Lemma generatePlan_limiters session event responseStream url :
  limitersBuilt (generatePlan session event responseStream url) = [].
Proof.
  unfold generatePlan.
  destruct (parsePlanActionCommand (prompt event)) as [planActionRequest|error];
    repeat case_bool_decide; simpl;
    rewrite ?limitersBuilt_app; simpl;
    try destruct (_ ≫= plan) as [thePlan|]; simpl;
    rewrite ?limitersBuilt_calls; done.
Qed.

Lemma generateResponse_limiters session event responseStream token m :
  limitersBuilt (effects (generateResponse session event responseStream token m))
  = limitersBuilt (effects m).
Proof.
  unfold generateResponse. destruct (editorUrl (provider m)) as [url|]; simpl;
    [|by rewrite limitersBuilt_app, app_nil_r].
  destruct (Js.truthy url); simpl; [|by rewrite limitersBuilt_app, app_nil_r].
  destruct (mode event); simpl; rewrite ?limitersBuilt_app; simpl;
    rewrite ?generatePlan_limiters, ?app_nil_r; done.
Qed.

Lemma provideEditStreamed_limiters fuel request m outcome m' :
  provideEditStreamed fuel request m = Some (outcome, m') →
  limitersBuilt (effects m') = limitersBuilt (effects m).
Proof.
  unfold provideEditStreamed.
  destruct (negb (apply_directly request) && _);
    [intros [= <- <-]; simpl; by rewrite limitersBuilt_app, app_nil_r|].
  destruct (event request) as [| |delta].
  - destruct (openTextDocument _ _); intros [= <- <-]; simpl; [|done].
    by rewrite limitersBuilt_app, app_nil_r.
  - destruct (editsMap (provider m) !! _) as [editsManager|]; [|by intros [= <- <-]].
    destruct (drain _ _ _) as [[editsManager' w]|]; [|done].
    destruct (cleanup _ _). intros [= <- <-]. simpl.
    by rewrite limitersBuilt_app, app_nil_r.
  - destruct (Js.truthy delta); [|by intros [= <- <-]].
    destruct (editsMap (provider m) !! _) as [editsManager|]; [|by intros [= <- <-]].
    destruct (drain _ _ _) as [[editsManager' w]|]; [|done]. by intros [= <- <-].
Qed.

(** No operation builds a limiter or replaces the provider's. *)
Lemma run_limiter op m m' :
  run op m = Some m' →
  limiter (provider m') = limiter (provider m) ∧
  limitersBuilt (effects m') = limitersBuilt (effects m).
Proof.
  destruct op as [port|events|fuel request|edits|session|event|event
                 |session event responseStream token|]; simpl.
  - intros [= <-]. destruct port; simpl; [|done].
    by rewrite limitersBuilt_app, app_nil_r.
  - intros [= <-]. simpl. by rewrite limitersBuilt_app, app_nil_r.
  - destruct (provideEditStreamed fuel request m) as [[outcome m'']|] eqn:Hrun; [|done].
    intros [= <-]. split;
      [by eapply provideEditStreamed_limiter | by eapply provideEditStreamed_limiters].
  - intros [= <-]. unfold provideEdit. destruct (edits_apply_directly edits); simpl;
      [by rewrite limitersBuilt_app, app_nil_r|].
    destruct (openResponseStream (provider m)); simpl;
      by rewrite limitersBuilt_app, app_nil_r.
  - by intros [= <-].
  - intros [= <-]. unfold handleEvent. by destruct (_ && _).
  - intros [= <-]. split; [apply processEvent_provider|].
    unfold processEvent. destruct (sessionId (provider m)) as [session|]; [|done].
    destruct (Js.truthy session); [|done]. simpl.
    destruct (initResponse session) as [[stream token]|]; [|done]. simpl.
    apply generateResponse_limiters.
  - intros [= <-]. split; [apply generateResponse_provider | apply generateResponse_limiters].
  - intros [= <-]. simpl. by rewrite limitersBuilt_app, app_nil_r.
Qed.

Lemma reachable_limiter m :
  reachable m → limiter (provider m) = {| slots := 1 |} ∧ limitersBuilt (effects m) = [1].
Proof.
  induction 1 as [repo projectLabels directory timer w|op m m' _ IH Hrun|m w _ IH].
  - done.
  - destruct (run_limiter op m m' Hrun) as [-> ->]. exact IH.
  - exact IH.
Qed.

(** C8: the provider builds one limiter, with a single slot, when it is
    constructed; no method builds another or replaces it, so it is the
    only one a provider ever has; and it is the limiter handed to
    reportAgentEventsToChat when an event in edit mode is answered. *)
Theorem limiter_single_slot (m : Machine) :
  reachable m →
  limiter (provider m) = {| slots := 1 |} ∧
  limitersBuilt (effects m) = [1] ∧
  (∀ op m', run op m = Some m' →
            limiter (provider m') = limiter (provider m) ∧
            limitersBuilt (effects m') = limitersBuilt (effects m)) ∧
  (∀ session event responseStream token url,
     editorUrl (provider m) = Some url → url ≠ "" → mode event = Edit →
     ∃ probeResponse,
       effects (generateResponse session event responseStream token m) =
       effects m ++ [called (reportAgentEventsToChat true probeResponse responseStream
                               session token {| slots := 1 |})]).
Proof.
  intros Hreach. destruct (reachable_limiter m Hreach) as [Hlimiter Hbuilt].
  split_and!; [done | done | intros op m'; apply run_limiter |].
  intros session event responseStream token url Hurl Hne Hmode.
  unfold generateResponse. rewrite Hurl, Hmode.
  unfold Js.truthy. rewrite bool_decide_false by done. simpl.
  rewrite Hlimiter. eauto.
Qed.

End AgentFacts.

(** A small setting for examples: lines are strings, the world is the
    journal of what reached the documents, the accumulator cuts the
    stream at line feeds, and the stream processor counts its lines. *)
#[local] Instance sampleVocabulary : Agent.Vocabulary :=
  {| Agent.Range := Z * Z;
     Agent.References := list string;
     Agent.ResponseStream := nat;
     Agent.CancellationToken := unit;
     Agent.RepoRef := string;
     Agent.AidePlanTimer := unit;
     Agent.PlanStep := Z;
     Agent.step_index := λ i, i;
     Agent.AnswerStreamLine := string;
     Agent.SidecarContextEvents := unit;
     Agent.EditsPayload := string |}.

(** Whole numbers as a template string prints them, for the examples. *)
Definition sampleNumberToString (n : float) : string :=
  match Prim2SF n with
  | S754_zero _ => "0"
  | S754_finite false m e => pretty (Z.shiftl (Z.pos m) e)
  | S754_finite true m e => "-" +:+ pretty (Z.shiftl (Z.pos m) e)
  | S754_infinity false => "Infinity"
  | S754_infinity true => "-Infinity"
  | S754_nan => "NaN"
  end.

Fixpoint sampleScan (delta : string) (a : string * list string) : string * list string :=
  match delta with
  | EmptyString => a
  | String c rest =>
      if bool_decide (nat_of_ascii c = 10) then sampleScan rest ("", a.2 ++ [a.1])
      else sampleScan rest (a.1 +:+ String c EmptyString, a.2)
  end.

#[local] Instance sampleCollaborators : Agent.Collaborators :=
  {| Agent.World := list string;
     Agent.now := λ _, 0%Z;
     Agent.openTextDocument := λ path _,
       if bool_decide (path = "/src/a.ts") then Some "const x = 1" else None;
     Agent.save := λ path w, w ++ ["saved " +:+ path];
     Agent.Accumulator := string * list string;
     Agent.newAccumulator := ("", []);
     Agent.addDelta := sampleScan;
     Agent.getLine := λ a,
       match a.2 with
       | [] => (None, a)
       | line :: rest => (Some line, (a.1, rest))
       end;
     Agent.Processor := nat;
     Agent.newProcessor := λ _, 0;
     Agent.processLine := λ line processor w, (S processor, w ++ [line]);
     Agent.cleanup := λ processor w, (processor, w ++ ["cleanup"]);
     Agent.isPortOpen := λ port, bool_decide (port = 42427%N);
     Agent.initResponse := λ _, Some (0, ());
     Agent.applyEdits_response := λ request,
       {| Agent.response_fs_file_path := Agent.edits_fs_file_path request;
          Agent.success := true |};
     Agent.plan_match := λ _, None;
     Agent.numberToString := sampleNumberToString;
     Agent.planResponse := λ _, None |}.

#[local] Instance sampleLineQueue : @LineQueue sampleVocabulary sampleCollaborators.
Proof.
  refine {| buffered := (snd : @Agent.Accumulator _ sampleCollaborators → list string) |}.
  - reflexivity.
  - intros [pending [|line rest]]; reflexivity.
  - intros [pending [|line rest]]; reflexivity.
  - intros [pending lines]. simpl. by intros ->.
  - reflexivity.
Defined.

Definition sampleRequest (e : Agent.EditStreamEvent) (direct : bool)
    : Agent.EditedCodeStreamingRequest :=
  {| Agent.edit_request_id := "edit-1"; Agent.range := (0%Z, 0%Z);
     Agent.fs_file_path := "/src/a.ts"; Agent.event := e;
     Agent.apply_directly := direct |}.

Definition sampleMachine : Agent.Machine := Agent.construct "local/app" [] "/work" () [].

(** The sample machine after the Start of the sample edit. *)
Definition sampleStarted : Agent.Machine :=
  match Agent.provideEditStreamed 1 (sampleRequest Agent.Start true) sampleMachine with
  | Some (_, m) => m
  | None => sampleMachine
  end.

Lemma sampleStarted_reachable : reachable sampleStarted.
Proof.
  apply (reachable_run (Agent.op_provideEditStreamed 1 (sampleRequest Agent.Start true))
                       sampleMachine); [apply reachable_construct | reflexivity].
Defined.


Lemma provideEditStreamed_drops_without_stream_sample :
  ∃ m',
    Agent.provideEditStreamed 1 (sampleRequest Agent.Start false) sampleMachine
    = Some (Js.Returned {| Agent.response_fs_file_path := ""; Agent.success := false |}, m') ∧
    Agent.editsMap (Agent.provider m') = ∅ ∧ Agent.world m' = [].
Proof.
  destruct (provideEditStreamed_drops_without_stream 1 (sampleRequest Agent.Start false)
              sampleMachine eq_refl eq_refl) as (m' & Hrun & _ & Hmap & _ & Hworld).
  exists m'. split_and!; [exact Hrun | exact Hmap | exact Hworld].
Defined.

(** The sample machine once its port is known. *)
Definition sampleListening : Agent.Machine :=
  (Agent.portFound (Some 42427%N) sampleMachine).2.

Lemma sampleListening_reachable : reachable sampleListening.
Proof.
  apply (reachable_run (Agent.op_portFound (Some 42427%N)) sampleMachine);
    [apply reachable_construct | reflexivity].
Defined.

Definition sampleEvent : Agent.AideAgentRequest :=
  {| Agent.request_id := "r1"; Agent.prompt := "rename x"; Agent.mode := Agent.Edit;
     Agent.scope := Agent.Codebase; Agent.references := [] |}.

Lemma limiter_single_slot_sample :
  ∃ probeResponse,
    Agent.effects (Agent.generateResponse "s1" sampleEvent 7 () sampleListening)
    = Agent.effects sampleListening
      ++ [Agent.called (Agent.reportAgentEventsToChat true probeResponse 7 "s1" ()
                          {| Agent.slots := 1 |})].
Proof.
  destruct (limiter_single_slot sampleListening sampleListening_reachable)
    as (_ & _ & _ & Hedit).
  apply (Hedit "s1" sampleEvent 7 () ("http://localhost:" +:+ pretty 42427%N));
    [reflexivity | discriminate | reflexivity].
Defined.

(* ===================================================================== *)
(** * Part III: further facts about the same code                         *)
(* ===================================================================== *)

(** ** Diffstat boxes, with and without changes *)

Section DiffstatShape.
Import Diffstat.

Lemma foldl_fill_boxes (f : nat → string) (k : nat) (diffstat : list string) :
  k ≤ length diffstat →
  foldl (λ d i, <[i := f i]> d) diffstat (seq 0 k) = (f <$> seq 0 k) ++ drop k diffstat.
Proof.
  induction k as [|k IH]; intros Hk; [by rewrite drop_0|].
  rewrite seq_S, foldl_snoc, fmap_app, IH by lia. simpl.
  assert (length (f <$> seq 0 k) = k) as Hlen by (by rewrite length_fmap, length_seq).
  destruct (drop k diffstat) as [|old rest] eqn:Hdrop.
  { apply (f_equal length) in Hdrop. rewrite length_drop in Hdrop. simpl in Hdrop. lia. }
  assert (drop (S k) diffstat = rest) as ->.
  { by rewrite <- Nat.add_1_r, <- drop_drop, Hdrop. }
  replace k with (length (f <$> seq 0 k) + 0) at 1 by lia.
  rewrite insert_app_r. simpl. by rewrite <- app_assoc.
Qed.

(** With a total that is not zero, box [i] is what the loop computes for
    [i], for every box. *)
Lemma calculateDiffstat_changed totalChanges linesAdded linesRemoved n :
  (totalChanges =? 0)%float = false →
  calculateDiffstat totalChanges linesAdded linesRemoved n =
  (λ i, box (linesAdded / totalChanges) (linesRemoved / totalChanges) (counter i))
  <$> seq 0 n.
Proof.
  intros Hne. unfold calculateDiffstat, Js.Array_fill. rewrite Hne.
  rewrite foldl_fill_boxes by (by rewrite length_replicate).
  rewrite drop_ge by (by rewrite length_replicate). by rewrite app_nil_r.
Qed.

Lemma box_values addRatio delRatio i :
  box addRatio delRatio i ∈ ["added"; "removed"; "empty"].
Proof.
  unfold box. destruct (_ <? _)%float; [set_solver|].
  destruct (_ <? _)%float; set_solver.
Qed.

Lemma calculateDiffstat_length totalChanges linesAdded linesRemoved n :
  length (calculateDiffstat totalChanges linesAdded linesRemoved n) = n.
Proof.
  destruct (totalChanges =? 0)%float eqn:Hzero.
  - unfold calculateDiffstat, Js.Array_fill. rewrite Hzero. apply length_replicate.
  - rewrite (calculateDiffstat_changed _ _ _ _ Hzero). by rewrite length_fmap, length_seq.
Qed.

(** X1: calculateDiffstat answers exactly numberOfBoxes boxes whatever the
    three numbers are (NaN and infinities included).  When the total is
    not zero every box is 'added', 'removed' or 'empty'; when it is zero
    every box is the string of the early return. *)
Theorem calculateDiffstat_shape totalChanges linesAdded linesRemoved n :
  length (calculateDiffstat totalChanges linesAdded linesRemoved n) = n ∧
  ((totalChanges =? 0)%float = false →
   ∀ b, b ∈ calculateDiffstat totalChanges linesAdded linesRemoved n →
        b ∈ ["added"; "removed"; "empty"]) ∧
  ((totalChanges =? 0)%float = true →
   ∀ b, b ∈ calculateDiffstat totalChanges linesAdded linesRemoved n → b = "emtpty").
Proof.
  split_and!.
  - apply calculateDiffstat_length.
  - intros Hne b Hb. rewrite (calculateDiffstat_changed _ _ _ _ Hne) in Hb.
    apply list_elem_of_fmap in Hb as (i & -> & _). apply box_values.
  - intros Hzero b Hb. unfold calculateDiffstat, Js.Array_fill in Hb. rewrite Hzero in Hb.
    by apply elem_of_replicate in Hb as [-> _].
Qed.

(** X2: generateDiffstats gives a DiffStat to every path of the record and
    to no other path, and every DiffStat it gives has five boxes. *)
Theorem generateDiffstats_paths (fileChanges : list (string * FileChanges)) (path : string) :
  (is_Some (generateDiffstats fileChanges !! path) ↔ path ∈ fileChanges.*1) ∧
  (∀ stat, generateDiffstats fileChanges !! path = Some stat → length stat = 5).
Proof.
  induction fileChanges as [|[path' changes] fileChanges [IHdom IHlen]] using rev_ind.
  - split.
    + unfold generateDiffstats. simpl. rewrite lookup_empty.
      split; [by intros [? ?] | by intros ?%elem_of_nil].
    + intros stat. unfold generateDiffstats. simpl. by rewrite lookup_empty.
  - rewrite generateDiffstats_snoc, fmap_app. simpl.
    destruct (decide (path' = path)) as [->|Hne].
    + rewrite lookup_insert_eq. split.
      * split; [|by eauto]. intros _. apply elem_of_app. right. by left.
      * intros stat Hstat. rewrite lookup_insert_eq in Hstat. injection Hstat as <-.
        apply calculateDiffstat_length.
    + split.
      * rewrite lookup_insert_ne by done.
        rewrite IHdom, elem_of_app, list_elem_of_singleton.
        split; [by left | intros [?|?]; [done | congruence]].
      * intros stat Hstat. rewrite lookup_insert_ne in Hstat by done. by apply IHlen.
Qed.

End DiffstatShape.

(** ** The probe model over a whole stream of progress *)

Section ProbeHistory.
Import Probe ProbeState.
Context `{Editor}.
Implicit Types (m : AideProbeModel) (r : AideProbeResponseModel).
Implicit Types (history : list IAideProbeProgress).

(** The calls of [acceptResponseProgress] for the items of a stream, in
    order, up to the first one that throws. *)
Fixpoint acceptAll history m : Js.Completion AideProbeModel :=
  match history with
  | [] => Js.Returned m
  | progress :: history =>
      match acceptResponseProgress progress m with
      | Js.Returned m => acceptAll history m
      | Js.Threw error => Js.Threw error
      end
  end.

(** What one accepted item does to the response. *)
Definition absorb r (progress : IAideProbeProgress) : AideProbeResponseModel :=
  match progress with
  | markdownContent content => set_result content r
  | breakdown b => applyBreakdown b r
  | goToDefinition g => applyGoToDefinition g r
  | textEditPreview p => applyCodeEditPreview p r
  | textEdit e => applyCodeEdit e r
  | otherProgress _ => r
  end.

(** The response a reader sees: the one of the model, or an empty one
    before the first item. *)
Definition shown m : AideProbeResponseModel := default newResponse (response m).

Definition textEdits history : list IAideProbeTextEdit :=
  omap (λ progress, match progress with textEdit e => Some e | _ => None end) history.

Definition markdownContents history : list IMarkdownString :=
  omap (λ progress, match progress with markdownContent c => Some c | _ => None end) history.

Lemma acceptAll_absorbs history m request :
  _request m = Some request →
  ∃ m', acceptAll history m = Js.Returned m' ∧
        _request m' = Some request ∧
        _isComplete m' = _isComplete m ∧ _isTailing m' = _isTailing m ∧
        emitted m' = emitted m ++ replicate (length history) onDidChange ∧
        shown m' = foldl absorb (shown m) history ∧
        (history ≠ [] → is_Some (response m')).
Proof.
  revert m. induction history as [|progress history IH]; intros m Hrequest.
  - exists m. simpl. rewrite app_nil_r. done.
  - simpl. unfold acceptResponseProgress at 1. rewrite Hrequest.
    match goal with |- context [acceptAll history ?m1] => set (m1' := m1) end.
    destruct (IH m1' eq_refl) as (m' & Hrun & Hreq & Hcomplete & Htail & Hemit & Hshown & Hsome).
    exists m'. split; [exact Hrun|]. split; [exact Hreq|].
    split; [exact Hcomplete|]. split; [exact Htail|]. split; [|split].
    + rewrite Hemit. subst m1'. simpl. by rewrite <- app_assoc.
    + rewrite Hshown. subst m1'. unfold shown, response. simpl.
      f_equal; by destruct progress, (_response m).
    + intros _. destruct history as [|progress' history]; [|by apply Hsome].
      simpl in Hrun. injection Hrun as <-. subst m1'. by eexists.
Qed.

(** X3: once the request is set the model accepts every stream of
    progress items, of every kind and in every order, without throwing,
    and fires onDidChange once per item and nothing else; the request and
    the completion and tailing flags are not touched. *)
Theorem acceptAll_notifies history m request :
  _request m = Some request →
  ∃ m', acceptAll history m = Js.Returned m' ∧
        emitted m' = emitted m ++ replicate (length history) onDidChange ∧
        _request m' = Some request ∧
        isComplete m' = isComplete m ∧ isTailing m' = isTailing m.
Proof.
  intros Hrequest.
  destruct (acceptAll_absorbs history m request Hrequest)
    as (m' & Hrun & Hreq & Hcomplete & Htail & Hemit & _).
  by exists m'.
Qed.

Lemma codeEdits_absorb r progress :
  codeEdits (absorb r progress) = codeEdits r ++ textEdits [progress].
Proof.
  destruct progress as [content|b|g|p|e|kind]; simpl; rewrite ?app_nil_r; try done.
  - by apply (applyBreakdown_elsewhere b r CodeEdits).
  - by apply (applyGoToDefinition_elsewhere g r CodeEdits).
  - by apply (applyCodeEditPreview_elsewhere p r CodeEdits).
Qed.

Lemma codeEdits_foldl history r :
  codeEdits (foldl absorb r history) = codeEdits r ++ textEdits history.
Proof.
  revert r. induction history as [|progress history IH]; intros r; simpl.
  - by rewrite app_nil_r.
  - rewrite IH, codeEdits_absorb. unfold textEdits. simpl.
    destruct progress; simpl; by rewrite <- ?app_assoc, ?app_nil_r.
Qed.

(** X4: the codeEdits of the response are exactly the textEdit items of
    the stream, in the order they arrived: none is dropped, merged or
    reordered, whatever else is streamed in between, and even when two
    edits are for the same symbol. *)
Theorem codeEdits_are_the_text_edits history m request :
  _request m = Some request →
  ∃ m', acceptAll history m = Js.Returned m' ∧
        codeEdits (shown m') = codeEdits (shown m) ++ textEdits history.
Proof.
  intros Hrequest.
  destruct (acceptAll_absorbs history m request Hrequest)
    as (m' & Hrun & _ & _ & _ & _ & Hshown & _).
  exists m'. split; [done|]. rewrite Hshown. apply codeEdits_foldl.
Qed.

Lemma result_absorb r progress :
  result (absorb r progress) =
  match progress with markdownContent c => Some c | _ => result r end.
Proof.
  destruct progress as [content|b|g|p|e|kind]; simpl; try done.
  - by apply (applyBreakdown_elsewhere b r Result).
  - by apply (applyGoToDefinition_elsewhere g r Result).
  - by apply (applyCodeEditPreview_elsewhere p r Result).
Qed.

Lemma result_foldl history r :
  result (foldl absorb r history) =
  match last (markdownContents history) with
  | Some c => Some c
  | None => result r
  end.
Proof.
  revert r. induction history as [|progress history IH]; intros r; [done|].
  simpl. rewrite IH, result_absorb. unfold markdownContents.
  destruct progress as [content|b|g|p|e|kind]; simpl; try done.
  fold (markdownContents history).
  destruct (markdownContents history) as [|c cs] eqn:Hcs; [done|].
  rewrite last_cons_cons.
  destruct (last (c :: cs)) eqn:Hlast; [done|]. by apply last_None in Hlast.
Qed.

(** X5: the result of the response is the content of the last
    markdownContent item of the stream: each such item replaces the
    result, nothing is concatenated, and no other kind of item changes
    it. *)
Theorem result_is_the_last_markdown history m request :
  _request m = Some request →
  ∃ m', acceptAll history m = Js.Returned m' ∧
        result (shown m') =
        match last (markdownContents history) with
        | Some c => Some c
        | None => result (shown m)
        end.
Proof.
  intros Hrequest.
  destruct (acceptAll_absorbs history m request Hrequest)
    as (m' & Hrun & _ & _ & _ & _ & Hshown & _).
  exists m'. split; [done|]. rewrite Hshown. apply result_foldl.
Qed.

Lemma absorb_Consistent r progress : Consistent r → Consistent (absorb r progress).
Proof.
  intros Hr. destruct progress as [content|b|g|p|e|kind]; simpl.
  - by eapply Consistent_same_records; [..|exact Hr].
  - by apply Consistent_applyBreakdown.
  - eapply Consistent_same_records; [..|exact Hr];
      unfold applyGoToDefinition; by destruct (Js.find _ _).
  - eapply Consistent_same_records; [..|exact Hr];
      unfold applyCodeEditPreview; by destruct (_codeEditsPreviewBySymbol _ !! _).
  - by eapply Consistent_same_records; [..|exact Hr].
  - done.
Qed.

Lemma foldl_absorb_Consistent history r :
  Consistent r → Consistent (foldl absorb r history).
Proof.
  revert r. induction history as [|progress history IH]; intros r Hr; [done|].
  simpl. by apply IH, absorb_Consistent.
Qed.

(** X6: starting from a model without a response, whatever stream of
    progress items is accepted, of whatever kinds and in whatever order,
    the response never lists two breakdowns for the same (uri, name). *)
Theorem response_lists_each_symbol_once history m request :
  _request m = Some request → response m = None →
  ∃ m', acceptAll history m = Js.Returned m' ∧
        NoDup (symbol <$> breakdowns (shown m')).
Proof.
  intros Hrequest Hfresh.
  destruct (acceptAll_absorbs history m request Hrequest)
    as (m' & Hrun & _ & _ & _ & _ & Hshown & _).
  exists m'. split; [done|]. rewrite Hshown.
  assert (shown m = newResponse) as -> by (unfold shown; by rewrite Hfresh).
  apply breakdowns_NoDup_symbols, foldl_absorb_Consistent, Consistent_new.
Qed.

(** X7: cancelRequest forgets the request and the response, clears the
    completion flag, keeps the tailing flag and fires onDidChange; a
    progress item that arrives afterwards is refused with 'Request not
    yet initialised' and leaves no trace. *)
Theorem cancelRequest_refuses_late_progress m progress :
  response (cancelRequest m) = None ∧
  requestInProgress (cancelRequest m) = false ∧
  isComplete (cancelRequest m) = false ∧
  isTailing (cancelRequest m) = isTailing m ∧
  emitted (cancelRequest m) = emitted m ++ [onDidChange] ∧
  acceptResponseProgress progress (cancelRequest m) = Js.Threw "Request not yet initialised".
Proof. done. Qed.

(** X8: completeResponse ends the request in progress and stops tailing,
    firing onDidChangeTailing(false) and then onDidChange; it keeps the
    request and the response, and completion does not close the model:
    a progress item arriving afterwards is still accepted and still
    fires onDidChange. *)
Theorem completeResponse_keeps_accepting m request progress :
  _request m = Some request →
  isComplete (completeResponse m) = true ∧
  requestInProgress (completeResponse m) = false ∧
  isTailing (completeResponse m) = false ∧
  response (completeResponse m) = response m ∧
  emitted (completeResponse m) = emitted m ++ [onDidChangeTailing false; onDidChange] ∧
  ∃ m', acceptResponseProgress progress (completeResponse m) = Js.Returned m' ∧
        isComplete m' = true ∧
        shown m' = absorb (shown m) progress ∧
        emitted m' =
          emitted m ++ [onDidChangeTailing false; onDidChange; onDidChange].
Proof.
  intros Hrequest. split_and!; try done.
  - unfold requestInProgress. simpl. by rewrite andb_false_r.
  - simpl. by rewrite <- app_assoc.
  - unfold acceptResponseProgress. simpl. rewrite Hrequest.
    eexists. split; [reflexivity|]. split_and!; [done | |].
    + unfold shown, response. simpl. by destruct progress, (_response m).
    + simpl. by rewrite <- !app_assoc.
Qed.

End ProbeHistory.

(** A stream for the sample model: a breakdown, two edits for the same
    symbol, two answers and twice the same definition. *)
Definition sampleEdit (d : string) : @Probe.IAideProbeTextEdit sampleEditor :=
  {| Probe.edit_reference := {| Probe.uri := "file:///src/a.ts"; Probe.name := "parse" |};
     Probe.edit_detail := d |}.

Definition sampleHistory : list (@Probe.IAideProbeProgress sampleEditor) :=
  [Probe.breakdown (sampleBreakdown "file:///src/a.ts" "parse" (Some "why?") None);
   Probe.textEdit (sampleEdit "first hunk");
   Probe.markdownContent {| Probe.value := "thinking" |};
   Probe.goToDefinition (sampleDefinition "file:///src/a.ts" "parse" "line 3");
   Probe.breakdown (sampleBreakdown "file:///src/a.ts" "parse" None (Some "because"));
   Probe.textEdit (sampleEdit "second hunk");
   Probe.goToDefinition (sampleDefinition "file:///src/a.ts" "parse" "line 9");
   Probe.markdownContent {| Probe.value := "done" |}].

Lemma acceptAll_notifies_sample :
  ∃ m', acceptAll sampleHistory sampleModel = Js.Returned m' ∧
        Probe.emitted m' = replicate 8 Probe.onDidChange.
Proof.
  destruct (@acceptAll_notifies sampleEditor sampleHistory sampleModel _ eq_refl)
    as (m' & Hrun & Hemit & _).
  exists m'. split; [exact Hrun | exact Hemit].
Defined.

Lemma codeEdits_are_the_text_edits_sample :
  ∃ m', acceptAll sampleHistory sampleModel = Js.Returned m' ∧
        Probe.codeEdits (shown m') = [sampleEdit "first hunk"; sampleEdit "second hunk"].
Proof.
  destruct (@codeEdits_are_the_text_edits sampleEditor sampleHistory sampleModel _ eq_refl)
    as (m' & Hrun & Hedits).
  exists m'. split; [exact Hrun | exact Hedits].
Defined.

Lemma result_is_the_last_markdown_sample :
  ∃ m', acceptAll sampleHistory sampleModel = Js.Returned m' ∧
        Probe.result (shown m') = Some {| Probe.value := "done" |}.
Proof.
  destruct (@result_is_the_last_markdown sampleEditor sampleHistory sampleModel _ eq_refl)
    as (m' & Hrun & Hresult).
  exists m'. split; [exact Hrun | exact Hresult].
Defined.

Lemma response_lists_each_symbol_once_sample :
  ∃ m', acceptAll sampleHistory sampleModel = Js.Returned m' ∧
        NoDup (symbol <$> Probe.breakdowns (shown m')).
Proof.
  exact (@response_lists_each_symbol_once sampleEditor sampleHistory sampleModel _
           eq_refl eq_refl).
Defined.

Lemma completeResponse_keeps_accepting_sample :
  ∃ m', Probe.acceptResponseProgress (Probe.textEdit (sampleEdit "late hunk"))
          (Probe.completeResponse sampleModel) = Js.Returned m' ∧
        Probe.codeEdits (shown m') = [sampleEdit "late hunk"] ∧
        Probe.emitted m' =
          [Probe.onDidChangeTailing false; Probe.onDidChange; Probe.onDidChange].
Proof.
  destruct (@completeResponse_keeps_accepting sampleEditor sampleModel _
              (Probe.textEdit (sampleEdit "late hunk")) eq_refl)
    as (_ & _ & _ & _ & _ & m' & Hrun & _ & Hshown & Hemit).
  exists m'. split; [exact Hrun|]. split; [by rewrite Hshown | exact Hemit].
Defined.

(** ** The agent session provider: ports, plans, sessions of edits *)

Section AgentMore.
Import Agent.
Context `{Vocabulary} `{!Collaborators}.
Implicit Types (m : Machine) (request : EditedCodeStreamingRequest) (w : World).

(** *** The port search *)

(** X9: given fuel for every port up to 65534, getNextOpenPort ends; it
    answers the first open port at or after startFrom and below 65535,
    or null when there is none.  Port 65535 itself is never tried. *)
Theorem getNextOpenPort_first_open (fuel : nat) (startFrom : N) :
  N.to_nat (65535 - startFrom) < fuel →
  match getNextOpenPort fuel startFrom with
  | Some (Some port) =>
      (startFrom ≤ port < 65535)%N ∧ isPortOpen port = true ∧
      ∀ q, (startFrom ≤ q < port)%N → isPortOpen q = false
  | Some None => ∀ q, (startFrom ≤ q < 65535)%N → isPortOpen q = false
  | None => False
  end.
Proof.
  revert startFrom. induction fuel as [|fuel IH]; intros startFrom Hfuel; [lia|].
  simpl. case_bool_decide as Hbelow; [|intros q; lia].
  destruct (isPortOpen startFrom) eqn:Hopen.
  - split_and!; [lia | lia | done | intros q; lia].
  - specialize (IH (startFrom + 1)%N ltac:(lia)).
    destruct (getNextOpenPort fuel (startFrom + 1)) as [[port|]|]; [| |done].
    + destruct IH as (Hrange & Hport & Hclosed). split_and!; [lia | lia | done |].
      intros q Hq. destruct (decide (q = startFrom)) as [->|Hne]; [done|].
      apply Hclosed. lia.
    + intros q Hq. destruct (decide (q = startFrom)) as [->|Hne]; [done|].
      apply IH. lia.
Qed.

(** *** Plan commands *)

Definition needsIndex (actionType : string) : Prop :=
  actionType = "DROP" ∨ actionType = "EXECUTE".

Lemma needsIndex_test (actionType : string) :
  bool_decide (actionType = "DROP") || bool_decide (actionType = "EXECUTE") = true
  ↔ needsIndex actionType.
Proof.
  unfold needsIndex. rewrite orb_true_iff, !bool_decide_eq_true. done.
Qed.

(** X10: parsePlanActionCommand answers CREATE for a command the pattern
    does not match; a request it answers carries an index exactly when
    its type is DROP or EXECUTE (an index given to any other action is
    discarded); and it throws exactly when the action is DROP or EXECUTE
    and the command gives no index. *)
Theorem parsePlanActionCommand_index (command : string) :
  (plan_match command = None →
   parsePlanActionCommand command = Js.Returned {| type := "CREATE"; index := None |}) ∧
  (∀ planActionRequest,
     parsePlanActionCommand command = Js.Returned planActionRequest →
     (needsIndex (type planActionRequest) ↔ is_Some (index planActionRequest))) ∧
  (∀ error,
     parsePlanActionCommand command = Js.Threw error ↔
     ∃ action, plan_match command = Some (action, None) ∧
               needsIndex (toUpperCase action) ∧
               error = "Index is required for " +:+ toUpperCase action +:+ " action").
Proof.
  unfold parsePlanActionCommand.
  destruct (plan_match command) as [[action indexStr]|]; [|split_and!].
  - pose proof (needsIndex_test (toUpperCase action)) as Htest.
    destruct (bool_decide _ || bool_decide _); split_and!; try done.
    + intros planActionRequest. destruct indexStr as [i|]; [|done].
      intros [= <-]. simpl. split; [by eauto | intros _; by apply Htest].
    + intros error. destruct indexStr as [i|].
      * split; [done | by intros (action' & Heq & _)].
      * split.
        -- intros [= <-]. exists action. split_and!; [done | by apply Htest | done].
        -- by intros (action' & [= <-] & _ & ->).
    + intros planActionRequest [= <-]. simpl. split; [|by intros [? ?]].
      intros Hneeds. apply Htest in Hneeds. done.
    + intros error. split; [done|].
      intros (action' & [= <- _] & Hneeds & _). apply Htest in Hneeds. done.
  - done.
  - intros planActionRequest [= <-]. simpl. unfold needsIndex.
    split; [intros [?|?]; done | by intros [? ?]].
  - intros error. split; [done | by intros (? & ? & _)].
Qed.

(** X11: in plan mode a DROP or EXECUTE command without its index is not
    refused: the error is logged and the command is answered as CREATE,
    so the sidecar is asked to create a plan from the whole prompt, and
    no drop or execute request is sent. *)
Theorem plan_without_index_creates session event responseStream token m url action :
  editorUrl (provider m) = Some url → url ≠ "" → mode event = Plan →
  plan_match (prompt event) = Some (action, None) → needsIndex (toUpperCase action) →
  ∃ stepped,
    effects (generateResponse session event responseStream token m) =
    effects m
    ++ [console_log [printed_event event];
        console_error [text ("Index is required for " +:+ toUpperCase action +:+ " action")];
        console_log [text "this implicitly means that we are doing CREATE"];
        console_log [printed_plan {| type := "CREATE"; index := None |}];
        console_log [text "create hit"];
        called (sidecar_plan (createPlanRequest (prompt event) session (references event) url))]
    ++ stepped ∧
    ∀ e, e ∈ stepped → ∃ planSession isLast planItem,
      e = called (responseStream_step responseStream planSession isLast planItem).
Proof.
  intros Hurl Hne Hmode Hmatch Hneeds.
  unfold generateResponse. rewrite Hurl, Hmode.
  unfold Js.truthy. rewrite bool_decide_false by done. simpl.
  unfold generatePlan, parsePlanActionCommand. rewrite Hmatch.
  rewrite (proj2 (needsIndex_test _) Hneeds). simpl.
  eexists. split; [reflexivity|].
  intros e He. destruct (planResponse _ ≫= plan) as [thePlan|]; [|by apply elem_of_nil in He].
  apply list_elem_of_fmap in He as (planItem & -> & _). eauto.
Qed.

(** *** Streamed edits for an id that is not registered *)

(** X12: for an edit_request_id with no entry in the edits map (no Start
    seen, or End already seen), a Delta is answered with success and
    ignored, while an End throws on the missing entry; in both cases the
    provider, the documents and the log are left as they were, whatever
    the fuel. *)
Theorem provideEditStreamed_unregistered fuel request m :
  apply_directly request = true ∨ is_Some (openResponseStream (provider m)) →
  editsMap (provider m) !! edit_request_id request = None →
  match event request with
  | Start => True
  | End => provideEditStreamed fuel request m = Some (Js.Threw "TypeError", m)
  | Delta _ => provideEditStreamed fuel request m = Some (Js.Returned accepted, m)
  end.
Proof.
  intros Hgate Hentry. destruct (event request) as [| |delta] eqn:Hevent; [done|..].
  - by apply provideEditStreamed_End_unknown.
  - by eapply provideEditStreamed_Delta_unknown.
Qed.

(** *** The open response stream *)

Lemma provideEditStreamed_stream fuel request m outcome m' :
  provideEditStreamed fuel request m = Some (outcome, m') →
  openResponseStream (provider m') = openResponseStream (provider m).
Proof.
  unfold provideEditStreamed.
  destruct (negb (apply_directly request) && _); [by intros [= <- <-]|].
  destruct (event request) as [| |delta].
  - destruct (openTextDocument _ _); by intros [= <- <-].
  - destruct (editsMap (provider m) !! _) as [editsManager|]; [|by intros [= <- <-]].
    destruct (drain _ _ _) as [[editsManager' w]|]; [|done].
    destruct (cleanup _ _). by intros [= <- <-].
  - destruct (Js.truthy delta); [|by intros [= <- <-]].
    destruct (editsMap (provider m) !! _) as [editsManager|]; [|by intros [= <- <-]].
    destruct (drain _ _ _) as [[editsManager' w]|]; [|done]. by intros [= <- <-].
Qed.

Lemma generateResponse_stream session event responseStream token m :
  is_Some (openResponseStream (provider m)) →
  is_Some (openResponseStream (provider (generateResponse session event responseStream token m))).
Proof.
  intros Hopen. unfold generateResponse.
  destruct (editorUrl (provider m)) as [url|]; [|done].
  destruct (Js.truthy url); [|done]. destruct (mode event); by eexists.
Qed.

(** X13: the provider never closes its view of the response stream: once
    openResponseStream is set, no method unsets it, so from the first
    answered event on no streamed edit is dropped for want of a
    stream. *)
Theorem openResponseStream_stays_open op m m' :
  run op m = Some m' →
  is_Some (openResponseStream (provider m)) →
  is_Some (openResponseStream (provider m')).
Proof.
  destruct op as [port|events|fuel request|edits|session|event|event
                 |session event responseStream token|]; simpl.
  - intros [= <-]. by destruct port.
  - by intros [= <-].
  - destruct (provideEditStreamed fuel request m) as [[outcome m'']|] eqn:Hrun; [|done].
    intros [= <-]. by rewrite (provideEditStreamed_stream _ _ _ _ _ Hrun).
  - intros [= <-] Hopen. unfold provideEdit. destruct (edits_apply_directly edits); [done|].
    destruct Hopen as [stream Hstream]. rewrite Hstream. simpl. by rewrite Hstream.
  - by intros [= <-].
  - intros [= <-]. unfold handleEvent. by destruct (_ && _).
  - intros [= <-] Hopen. unfold processEvent.
    destruct (sessionId (provider m)) as [session|]; [|done].
    destruct (Js.truthy session); [|done]. simpl.
    destruct (initResponse session) as [[stream token]|]; [|done]. simpl.
    by apply generateResponse_stream.
  - intros [= <-]. apply generateResponse_stream.
  - by intros [= <-].
Qed.

(** X14: answering an event, in any mode, once the editor URL is known,
    makes the event's response stream the open one (before any report is
    awaited); a Start that follows is then registered even without
    apply_directly, and its stream processor is built on that stream and
    numbered with the current edit counter. *)
Theorem answered_event_opens_stream session event responseStream token m url
    fuel request document :
  editorUrl (provider m) = Some url → url ≠ "" →
  Agent.event request = Start →
  openTextDocument (fs_file_path request) (world m) = Some document →
  let m1 := generateResponse session event responseStream token m in
  openResponseStream (provider m1) = Some responseStream ∧
  ∃ m2,
    provideEditStreamed fuel request m1 = Some (Js.Returned accepted, m2) ∧
    editsMap (provider m2) !! edit_request_id request =
    Some {| answerSplitter := newAccumulator;
            streamProcessor :=
              newProcessor {| sp_responseStream := Some responseStream;
                              sp_documentLines := splitLines document;
                              sp_uri := fs_file_path request;
                              sp_range := range request;
                              sp_applyDirectly := apply_directly request;
                              sp_uniqueId := editCounter (provider m) |} |}.
Proof.
  intros Hurl Hne Hevent Hopen m1.
  assert (openResponseStream (provider m1) = Some responseStream
          ∧ world m1 = world m ∧ editCounter (provider m1) = editCounter (provider m))
    as (Hstream & Hworld & Hcounter).
  { subst m1. unfold generateResponse. rewrite Hurl.
    unfold Js.truthy. rewrite bool_decide_false by done. simpl.
    by destruct (mode event). }
  split; [done|].
  destruct (provideEditStreamed_Start fuel request m1 document) as (m2 & Hrun & Hmap & _).
  - right. rewrite Hstream. by eexists.
  - done.
  - by rewrite Hworld.
  - exists m2. split; [done|]. rewrite Hmap, lookup_insert_eq, Hstream, Hcounter. done.
Qed.

(** *** The edit counter *)

(** The files of the edits reported as finished, oldest first. *)
Definition finishedEdits (es : list Effect) : list string :=
  omap (λ e, match e with
             | console_log [text what; text file] =>
                 if bool_decide (what = "provideEditsStreamed::finished") then Some file
                 else None
             | _ => None
             end) es.

Lemma finishedEdits_app es es' :
  finishedEdits (es ++ es') = finishedEdits es ++ finishedEdits es'.
Proof. apply omap_app. Qed.

Lemma finishedEdits_calls {A : Type} (f : A → Call) (l : list A) :
  finishedEdits ((λ x, called (f x)) <$> l) = [].
Proof. induction l as [|x l IH]; [done | exact IH]. Qed.

Lemma generatePlan_finished session event responseStream url :
  finishedEdits (generatePlan session event responseStream url) = [].
Proof.
  unfold generatePlan.
  destruct (parsePlanActionCommand (prompt event)) as [planActionRequest|error];
    repeat case_bool_decide; simpl;
    rewrite ?finishedEdits_app; simpl;
    try destruct (_ ≫= plan) as [thePlan|]; simpl;
    rewrite ?finishedEdits_calls; done.
Qed.

Lemma generateResponse_counter session event responseStream token m :
  let m' := generateResponse session event responseStream token m in
  editCounter (provider m') = editCounter (provider m) ∧
  finishedEdits (effects m') = finishedEdits (effects m).
Proof.
  unfold generateResponse. destruct (editorUrl (provider m)) as [url|]; simpl;
    [|by rewrite finishedEdits_app, app_nil_r].
  destruct (Js.truthy url); simpl; [|by rewrite finishedEdits_app, app_nil_r].
  destruct (mode event); simpl; rewrite ?finishedEdits_app; simpl;
    rewrite ?generatePlan_finished, ?app_nil_r; done.
Qed.

Lemma provideEditStreamed_counter fuel request m outcome m' :
  provideEditStreamed fuel request m = Some (outcome, m') →
  length (finishedEdits (effects m')) - editCounter (provider m') =
  length (finishedEdits (effects m)) - editCounter (provider m) ∧
  editCounter (provider m') - length (finishedEdits (effects m')) =
  editCounter (provider m) - length (finishedEdits (effects m)).
Proof.
  unfold provideEditStreamed.
  destruct (negb (apply_directly request) && _);
    [intros [= <- <-]; simpl; by rewrite finishedEdits_app, app_nil_r|].
  destruct (event request) as [| |delta].
  - destruct (openTextDocument _ _); intros [= <- <-]; simpl; [|done].
    by rewrite finishedEdits_app, app_nil_r.
  - destruct (editsMap (provider m) !! _) as [editsManager|]; [|by intros [= <- <-]].
    destruct (drain _ _ _) as [[editsManager' w]|]; [|done].
    destruct (cleanup _ _). intros [= <- <-]. simpl.
    rewrite finishedEdits_app, length_app. simpl. lia.
  - destruct (Js.truthy delta); [|by intros [= <- <-]].
    destruct (editsMap (provider m) !! _) as [editsManager|]; [|by intros [= <- <-]].
    destruct (drain _ _ _) as [[editsManager' w]|]; [|done]. by intros [= <- <-].
Qed.

Lemma run_counter op m m' :
  run op m = Some m' →
  editCounter (provider m) = length (finishedEdits (effects m)) →
  editCounter (provider m') = length (finishedEdits (effects m')).
Proof.
  destruct op as [port|events|fuel request|edits|session|event|event
                 |session event responseStream token|]; simpl.
  - intros [= <-]. destruct port; simpl; [|done].
    by rewrite finishedEdits_app, app_nil_r.
  - intros [= <-]. simpl. by rewrite finishedEdits_app, app_nil_r.
  - destruct (provideEditStreamed fuel request m) as [[outcome m'']|] eqn:Hrun; [|done].
    intros [= <-] Hm. apply provideEditStreamed_counter in Hrun. simpl. lia.
  - intros [= <-]. unfold provideEdit. destruct (edits_apply_directly edits); simpl;
      [by rewrite finishedEdits_app, app_nil_r|].
    destruct (openResponseStream (provider m)); simpl;
      by rewrite finishedEdits_app, app_nil_r.
  - by intros [= <-].
  - intros [= <-]. unfold handleEvent. by destruct (_ && _).
  - intros [= <-]. unfold processEvent.
    destruct (sessionId (provider m)) as [session|]; [|done].
    destruct (Js.truthy session); [|done]. simpl.
    destruct (initResponse session) as [[stream token]|]; [|done]. simpl.
    destruct (generateResponse_counter session event stream token m) as [-> ->]. done.
  - intros [= <-].
    destruct (generateResponse_counter session event responseStream token m) as [-> ->]. done.
  - intros [= <-]. simpl. by rewrite finishedEdits_app, app_nil_r.
Qed.

(** X15: in every state the provider can reach, the edit counter is the
    number of streamed edits it has reported as finished: it starts at
    zero, every completed End adds one to both, and nothing else moves
    either; so the number a stream processor is given at Start is the
    number of edits finished before it. *)
Theorem editCounter_counts_finished_edits m :
  reachable m → editCounter (provider m) = length (finishedEdits (effects m)).
Proof.
  induction 1 as [repo projectLabels directory timer w|op m m' _ IH Hrun|m w _ IH].
  - done.
  - by eapply run_counter.
  - exact IH.
Qed.

(** *** The event queue and the events in flight *)

(** X16: the event queue is append-only: handleEvent puts every event at
    its end, started or not, and no method of the provider ever takes
    an event out or reorders the queue. *)
Theorem eventQueue_append_only op m m' :
  run op m = Some m' →
  eventQueue (provider m) `prefix_of` eventQueue (provider m') ∧
  (∀ event, op = op_handleEvent event →
            eventQueue (provider m') = eventQueue (provider m) ++ [event]).
Proof.
  destruct op as [port|events|fuel request|edits|session|event|event
                 |session event responseStream token|]; simpl.
  - intros [= <-]. split; [by destruct port | done].
  - intros [= <-]. done.
  - intros Hrun. split; [|done].
    destruct (provideEditStreamed fuel request m) as [[outcome m'']|] eqn:Hstreamed; [|done].
    injection Hrun as <-. revert Hstreamed. unfold provideEditStreamed.
    destruct (negb (apply_directly request) && _); [by intros [= <- <-]|].
    destruct (Agent.event request) as [| |delta].
    + destruct (openTextDocument _ _); by intros [= <- <-].
    + destruct (editsMap (provider m) !! _) as [editsManager|]; [|by intros [= <- <-]].
      destruct (drain _ _ _) as [[editsManager' w]|]; [|done].
      destruct (cleanup _ _). by intros [= <- <-].
    + destruct (Js.truthy delta); [|by intros [= <- <-]].
      destruct (editsMap (provider m) !! _) as [editsManager|]; [|by intros [= <- <-]].
      destruct (drain _ _ _) as [[editsManager' w]|]; [|done]. by intros [= <- <-].
  - intros [= <-]. split; [|done]. unfold provideEdit.
    destruct (edits_apply_directly edits); [done|].
    by destruct (openResponseStream (provider m)).
  - by intros [= <-].
  - intros [= <-]. unfold handleEvent. split.
    + destruct (_ && _); simpl; by apply prefix_app_r.
    + intros event' [= <-]. by destruct (_ && _).
  - intros [= <-]. split; [|done]. unfold processEvent.
    destruct (sessionId (provider m)) as [session|]; [|done].
    destruct (Js.truthy session); [|done]. simpl.
    destruct (initResponse session) as [[stream token]|]; [|done]. simpl.
    unfold generateResponse. destruct (editorUrl (provider m)) as [url|]; [|done].
    destruct (Js.truthy url); [|done]. by destruct (mode event).
  - intros [= <-]. split; [|done].
    unfold generateResponse. destruct (editorUrl (provider m)) as [url|]; [|done].
    destruct (Js.truthy url); [|done]. by destruct (mode event).
  - by intros [= <-].
Qed.

(** X17: with a session, handleEvent starts an event exactly when its id
    is not marked as in flight, and marks it; a second handleEvent for
    the same id starts nothing.  processEvent clears the mark when the
    agent opens a response; when the agent opens none, processEvent
    returns with the mark still set, and the event can never be started
    again. *)
Theorem events_in_flight event m session :
  sessionId (provider m) = Some session → session ≠ "" →
  let m1 := (handleEvent event m).2 in
  let m2 := processEvent event m1 in
  (handleEvent event m).1 =
    negb (bool_decide (is_Some (processingEvents (provider m) !! request_id event))) ∧
  is_Some (processingEvents (provider m1) !! request_id event) ∧
  (handleEvent event m1).1 = false ∧
  (is_Some (initResponse session) →
   processingEvents (provider m2) !! request_id event = None ∧
   (handleEvent event m2).1 = true) ∧
  (initResponse session = None →
   m2 = m1 ∧ (handleEvent event m2).1 = false).
Proof.
  intros Hsession Hne m1 m2.
  assert (Js.truthy session = true) as Htruthy.
  { unfold Js.truthy. by rewrite bool_decide_false. }
  assert (sessionId (provider m1) = Some session) as Hsession1.
  { subst m1. unfold handleEvent. simpl. rewrite Hsession, Htruthy. simpl.
    by destruct (negb _). }
  assert (is_Some (processingEvents (provider m1) !! request_id event)) as Hmarked.
  { subst m1. unfold handleEvent. simpl. rewrite Hsession, Htruthy. simpl.
    case_bool_decide as Hin; simpl; [done|]. rewrite lookup_insert_eq. by eexists. }
  assert (∀ m', sessionId (provider m') = Some session →
                (handleEvent event m').1 =
                negb (bool_decide (is_Some (processingEvents (provider m') !! request_id event))))
    as Hstart.
  { intros m' Hs. unfold handleEvent. simpl. rewrite Hs, Htruthy. simpl.
    by destruct (negb _). }
  split_and!.
  - by apply Hstart.
  - done.
  - rewrite (Hstart m1 Hsession1). by rewrite bool_decide_true.
  - intros [[stream token] Hinit].
    assert (processingEvents (provider m2) !! request_id event = None
            ∧ sessionId (provider m2) = Some session) as [Hcleared Hsession2].
    { subst m2. unfold processEvent. rewrite Hsession1, Htruthy, Hinit. simpl.
      rewrite lookup_delete_eq. split; [done|].
      unfold generateResponse. destruct (editorUrl (provider m1)) as [url|]; [|done].
      destruct (Js.truthy url); [|done]. by destruct (mode event). }
    split; [done|]. rewrite (Hstart m2 Hsession2), Hcleared.
    rewrite bool_decide_false; [done | by intros [? ?]].
  - intros Hinit.
    assert (m2 = m1) as Hsame.
    { subst m2. unfold processEvent. by rewrite Hsession1, Htruthy, Hinit. }
    split; [done|]. rewrite Hsame, (Hstart m1 Hsession1). by rewrite bool_decide_true.
Qed.

(** *** The two edit handlers without a response stream *)

(** X18: without an open response stream and without apply_directly the
    two edit handlers disagree: provideEditStreamed drops the request
    and answers success false with an empty path, while provideEdit
    answers success true with the request's path; neither applies an
    edit, calls a collaborator or changes the provider or a document:
    each only writes one line to the log. *)
Theorem edit_handlers_without_stream fuel request edits m :
  openResponseStream (provider m) = None →
  apply_directly request = false → edits_apply_directly edits = false →
  provideEditStreamed fuel request m =
    Some (Js.Returned {| response_fs_file_path := ""; success := false |},
          emit [console_log [text "editing_streamed::no_open_response_stream"]] m) ∧
  provideEdit edits m =
    ({| response_fs_file_path := edits_fs_file_path edits; success := true |},
     emit [console_log [text "returning early over here"]] m).
Proof.
  intros Hstream Hdirect Hedits. split.
  - unfold provideEditStreamed. rewrite Hdirect, Hstream.
    by rewrite bool_decide_false by (by intros [? ?]).
  - unfold provideEdit. by rewrite Hedits, Hstream.
Qed.

End AgentMore.

(** ** A whole streamed edit: Start, the deltas, End *)

Section AgentSessions.
Import Agent.
Context `{Vocabulary} `{!Collaborators} `{!LineQueue}.
Implicit Types (m : Machine) (request : EditedCodeStreamingRequest) (w : World).
Implicit Types (a : Accumulator) (processor : Processor) (deltas : list string).

(** The same request with another event. *)
Definition with_event (e : EditStreamEvent) request : EditedCodeStreamingRequest :=
  {| edit_request_id := edit_request_id request; range := range request;
     fs_file_path := fs_file_path request; event := e;
     apply_directly := apply_directly request |}.

(** The Delta requests for the texts of a stream, one call of
    [provideEditStreamed] each; [None] if a call runs out of fuel or
    throws. *)
Fixpoint deliver (fuel : nat) deltas request m : option Machine :=
  match deltas with
  | [] => Some m
  | delta :: deltas =>
      match provideEditStreamed fuel (with_event (Delta delta) request) m with
      | Some (Js.Returned _, m) => deliver fuel deltas request m
      | _ => None
      end
  end.

(** The lines an accumulator completes over a stream of texts, and the
    accumulator left at the end. *)
Fixpoint linesOf deltas a : list AnswerStreamLine :=
  match deltas with
  | [] => []
  | delta :: deltas => buffered (addDelta delta a) ++ linesOf deltas (drained (addDelta delta a))
  end.

Fixpoint splitterAfter deltas a : Accumulator :=
  match deltas with
  | [] => a
  | delta :: deltas => splitterAfter deltas (drained (addDelta delta a))
  end.

Lemma feed_app lines lines' (pw : Processor * World) :
  feed (lines ++ lines') pw = feed lines' (feed lines pw).
Proof. apply foldl_app. Qed.

Lemma provideEditStreamed_Delta_step fuel request m delta a processor :
  Idle m →
  apply_directly request = true ∨ is_Some (openResponseStream (provider m)) →
  editsMap (provider m) !! edit_request_id request
  = Some {| answerSplitter := a; streamProcessor := processor |} →
  length (buffered (addDelta delta a)) < fuel →
  ∃ m',
    provideEditStreamed fuel (with_event (Delta delta) request) m
    = Some (Js.Returned accepted, m') ∧
    editsMap (provider m') =
      <[edit_request_id request :=
          {| answerSplitter := drained (addDelta delta a);
             streamProcessor := (feed (buffered (addDelta delta a)) (processor, world m)).1 |}]>
        (editsMap (provider m)) ∧
    world m' = (feed (buffered (addDelta delta a)) (processor, world m)).2 ∧
    editCounter (provider m') = editCounter (provider m) ∧
    openResponseStream (provider m') = openResponseStream (provider m).
Proof.
  intros Hidle Hgate Hentry Hfuel.
  destruct (decide (delta = "")) as [->|Hdelta].
  - exists m. rewrite provideEditStreamed_Delta_empty by done.
    pose proof (Hidle _ _ Hentry) as Hnone. simpl in Hnone.
    rewrite addDelta_empty, Hnone, (drained_idle _ Hnone). simpl.
    split_and!; [done | | done..]. symmetry. by apply insert_id.
  - unfold provideEditStreamed. simpl.
    rewrite (gate_open _ _ Hgate), Hentry.
    unfold Js.truthy. rewrite bool_decide_false by done. simpl.
    rewrite (drain_enough _ (addDelta delta a) _ _ fuel eq_refl Hfuel).
    eexists. split; [reflexivity|]. done.
Qed.

Lemma deliver_feeds fuel deltas request m a processor :
  reachable m →
  apply_directly request = true ∨ is_Some (openResponseStream (provider m)) →
  editsMap (provider m) !! edit_request_id request
  = Some {| answerSplitter := a; streamProcessor := processor |} →
  length (linesOf deltas a) < fuel →
  ∃ m',
    deliver fuel deltas request m = Some m' ∧ reachable m' ∧
    editsMap (provider m') =
      <[edit_request_id request :=
          {| answerSplitter := splitterAfter deltas a;
             streamProcessor := (feed (linesOf deltas a) (processor, world m)).1 |}]>
        (editsMap (provider m)) ∧
    world m' = (feed (linesOf deltas a) (processor, world m)).2 ∧
    editCounter (provider m') = editCounter (provider m) ∧
    openResponseStream (provider m') = openResponseStream (provider m).
Proof.
  revert m a processor.
  induction deltas as [|delta deltas IH]; intros m a processor Hreach Hgate Hentry Hfuel.
  - exists m. simpl. split_and!; [done..| |done|done|done].
    symmetry. by apply insert_id.
  - simpl in Hfuel. rewrite length_app in Hfuel.
    destruct (provideEditStreamed_Delta_step fuel request m delta a processor)
      as (m1 & Hrun & Hmap & Hworld & Hcounter & Hstream);
      [by apply reachable_Idle | done | done | lia |].
    assert (reachable m1) as Hreach1.
    { apply (reachable_run (op_provideEditStreamed fuel (with_event (Delta delta) request)) m);
        [done|]. simpl. by rewrite Hrun. }
    destruct (IH m1 (drained (addDelta delta a))
                 (feed (buffered (addDelta delta a)) (processor, world m)).1)
      as (m' & Hdeliver & Hreach' & Hmap' & Hworld' & Hcounter' & Hstream').
    + done.
    + by rewrite Hstream.
    + by rewrite Hmap, lookup_insert_eq.
    + lia.
    + exists m'. simpl. rewrite Hrun.
      assert (feed (buffered (addDelta delta a) ++ linesOf deltas (drained (addDelta delta a)))
                   (processor, world m)
              = feed (linesOf deltas (drained (addDelta delta a)))
                     ((feed (buffered (addDelta delta a)) (processor, world m)).1, world m1))
        as Hfeed.
      { rewrite feed_app, Hworld.
        by destruct (feed (buffered (addDelta delta a)) (processor, world m)). }
      rewrite Hfeed. split_and!; [done | done | | done | congruence | congruence].
      rewrite Hmap', Hmap. by rewrite insert_insert_eq.
Qed.

(** X19: a whole streamed edit composes.  From any reachable state in
    which the request is handled and the document opens, Start, then one
    Delta per text of the stream, then End all succeed (given fuel above
    the number of lines of the stream); together they leave the edits map
    without an entry for the id, exactly as it was for every other id,
    the edit counter one higher, and the documents as the stream
    processor built at Start leaves them after the lines the accumulator
    completes over the texts, in order, followed by one cleanup and one
    save of the file. *)
Theorem streamed_edit_session fuel deltas request m document :
  reachable m →
  apply_directly request = true ∨ is_Some (openResponseStream (provider m)) →
  openTextDocument (fs_file_path request) (world m) = Some document →
  length (linesOf deltas newAccumulator) < fuel →
  let processor :=
    newProcessor {| sp_responseStream := openResponseStream (provider m);
                    sp_documentLines := splitLines document;
                    sp_uri := fs_file_path request;
                    sp_range := range request;
                    sp_applyDirectly := apply_directly request;
                    sp_uniqueId := editCounter (provider m) |} in
  let fed := feed (linesOf deltas newAccumulator) (processor, world m) in
  ∃ m1 m2 m3,
    provideEditStreamed fuel (with_event Start request) m = Some (Js.Returned accepted, m1) ∧
    deliver fuel deltas request m1 = Some m2 ∧
    provideEditStreamed fuel (with_event End request) m2 = Some (Js.Returned accepted, m3) ∧
    world m3 = save (fs_file_path request) (cleanup fed.1 fed.2).2 ∧
    editsMap (provider m3) = delete (edit_request_id request) (editsMap (provider m)) ∧
    editCounter (provider m3) = editCounter (provider m) + 1.
Proof.
  intros Hreach Hgate Hopen Hfuel processor fed.
  destruct (provideEditStreamed_Start fuel (with_event Start request) m document)
    as (m1 & Hstart & Hmap1 & Hworld1); [done..|].
  simpl in Hmap1. fold processor in Hmap1.
  assert (reachable m1) as Hreach1.
  { apply (reachable_run (op_provideEditStreamed fuel (with_event Start request)) m);
      [done|]. simpl. by rewrite Hstart. }
  assert (openResponseStream (provider m1) = openResponseStream (provider m)
          ∧ editCounter (provider m1) = editCounter (provider m)) as [Hstream1 Hcounter1].
  { revert Hstart. unfold provideEditStreamed. simpl.
    rewrite (gate_open _ _ Hgate), Hopen. by intros [= <-]. }
  destruct (deliver_feeds fuel deltas request m1 newAccumulator processor)
    as (m2 & Hdeliver & Hreach2 & Hmap2 & Hworld2 & Hcounter2 & Hstream2).
  { done. }
  { by rewrite Hstream1. }
  { by rewrite Hmap1, lookup_insert_eq. }
  { done. }
  rewrite Hworld1 in Hmap2, Hworld2. fold fed in Hmap2, Hworld2.
  assert (editsMap (provider m2) !! edit_request_id request
          = Some {| answerSplitter := splitterAfter deltas newAccumulator;
                    streamProcessor := fed.1 |}) as Hentry2.
  { by rewrite Hmap2, lookup_insert_eq. }
  pose proof (reachable_Idle m2 Hreach2 _ _ Hentry2) as Hidle2. simpl in Hidle2.
  destruct (provideEditStreamed_End fuel (with_event End request) m2 _
              ltac:(simpl; rewrite Hstream2, Hstream1; exact Hgate) eq_refl Hentry2)
    as (m3 & Hend & Hworld3 & Hmap3 & Hcounter3 & _).
  { simpl. rewrite Hidle2. simpl. lia. }
  exists m1, m2, m3. split_and!; [done..| | |].
  - rewrite Hworld3. simpl. rewrite Hidle2. simpl. by rewrite Hworld2.
  - rewrite Hmap3. simpl. rewrite Hmap2, Hmap1. by rewrite !delete_insert_eq.
  - rewrite Hcounter3, Hcounter2, Hcounter1. done.
Qed.

End AgentSessions.

(** The sample setting once more, with a planner: the command "@drop"
    names the action without an index, and the sidecar answers every plan
    request with a plan of two steps. *)
Definition samplePlanner : @Agent.Collaborators sampleVocabulary :=
  {| Agent.World := list string;
     Agent.now := λ _, 0%Z;
     Agent.openTextDocument := λ path _,
       if bool_decide (path = "/src/a.ts") then Some "const x = 1" else None;
     Agent.save := λ path w, w ++ ["saved " +:+ path];
     Agent.Accumulator := string * list string;
     Agent.newAccumulator := ("", []);
     Agent.addDelta := sampleScan;
     Agent.getLine := λ a,
       match a.2 with
       | [] => (None, a)
       | line :: rest => (Some line, (a.1, rest))
       end;
     Agent.Processor := nat;
     Agent.newProcessor := λ _, 0;
     Agent.processLine := λ line processor w, (S processor, w ++ [line]);
     Agent.cleanup := λ processor w, (processor, w ++ ["cleanup"]);
     Agent.isPortOpen := λ port, bool_decide (port = 42427%N);
     Agent.initResponse := λ _, None;
     Agent.applyEdits_response := λ request,
       {| Agent.response_fs_file_path := Agent.edits_fs_file_path request;
          Agent.success := true |};
     Agent.plan_match := λ command,
       if bool_decide (command = "@drop") then Some ("drop", None) else None;
     Agent.numberToString := sampleNumberToString;
     Agent.planResponse := λ _,
       Some {| Agent.plan := Some {| Agent.plan_sessionId := "plan-1";
                                     Agent.steps := [0%Z; 1%Z] |} |} |}.

Lemma getNextOpenPort_first_open_sample :
  @Agent.getNextOpenPort sampleVocabulary sampleCollaborators (N.to_nat 23200) 42420
  = Some (Some 42427%N).
Proof.
  pose proof (@getNextOpenPort_first_open sampleVocabulary sampleCollaborators
                (N.to_nat 23200) 42420%N ltac:(lia)) as Hfirst.
  destruct (@Agent.getNextOpenPort sampleVocabulary sampleCollaborators
              (N.to_nat 23200) 42420) as [[port|]|].
  - destruct Hfirst as (_ & Hopen & _). apply bool_decide_eq_true in Hopen. by subst port.
  - specialize (Hfirst 42427%N ltac:(lia)). discriminate Hfirst.
  - destruct Hfirst.
Defined.

Definition samplePlanEvent : Agent.AideAgentRequest :=
  {| Agent.request_id := "r2"; Agent.prompt := "@drop"; Agent.mode := Agent.Plan;
     Agent.scope := Agent.Codebase; Agent.references := [] |}.

Definition samplePlanning : @Agent.Machine sampleVocabulary samplePlanner :=
  (@Agent.portFound sampleVocabulary samplePlanner (Some 42427%N)
     (@Agent.construct sampleVocabulary samplePlanner "local/app" [] "/work" () [])).2.

Lemma plan_without_index_creates_sample :
  ∃ stepped,
    @Agent.effects sampleVocabulary samplePlanner
      (@Agent.generateResponse sampleVocabulary samplePlanner
         "s1" samplePlanEvent 7 () samplePlanning)
    = @Agent.effects sampleVocabulary samplePlanner samplePlanning
      ++ [Agent.console_log [Agent.printed_event samplePlanEvent];
          Agent.console_error [Agent.text "Index is required for DROP action"];
          Agent.console_log [Agent.text "this implicitly means that we are doing CREATE"];
          Agent.console_log
            [Agent.printed_plan {| Agent.type := "CREATE"; Agent.index := None |}];
          Agent.console_log [Agent.text "create hit"];
          Agent.called (Agent.sidecar_plan
                          (Agent.createPlanRequest "@drop" "s1" []
                             ("http://localhost:" +:+ pretty 42427%N)))]
      ++ stepped ∧
    ∀ e, e ∈ stepped → ∃ planSession isLast planItem,
      e = Agent.called (Agent.responseStream_step 7 planSession isLast planItem).
Proof.
  exact (@plan_without_index_creates sampleVocabulary samplePlanner
           "s1" samplePlanEvent 7 () samplePlanning
           ("http://localhost:" +:+ pretty 42427%N) "drop"
           eq_refl ltac:(discriminate) eq_refl eq_refl (or_introl eq_refl)).
Defined.

Lemma provideEditStreamed_unregistered_sample :
  Agent.provideEditStreamed 0 (sampleRequest Agent.End true) sampleMachine
  = Some (Js.Threw "TypeError", sampleMachine).
Proof.
  exact (@provideEditStreamed_unregistered sampleVocabulary sampleCollaborators
           0 (sampleRequest Agent.End true) sampleMachine (or_introl eq_refl) eq_refl).
Defined.

(** The sample machine while it answers the sample event. *)
Definition sampleAnswering : Agent.Machine :=
  Agent.generateResponse "s1" sampleEvent 7 () sampleListening.

Lemma openResponseStream_stays_open_sample :
  is_Some (Agent.openResponseStream
             (Agent.provider (Agent.newSession "s2" sampleAnswering))).
Proof.
  apply (@openResponseStream_stays_open sampleVocabulary sampleCollaborators
           (Agent.op_newSession "s2") sampleAnswering); [reflexivity | by eexists].
Defined.

Lemma answered_event_opens_stream_sample :
  Agent.openResponseStream (Agent.provider sampleAnswering) = Some 7 ∧
  ∃ m2,
    Agent.provideEditStreamed 1 (sampleRequest Agent.Start false) sampleAnswering
    = Some (Js.Returned Agent.accepted, m2) ∧
    is_Some (Agent.editsMap (Agent.provider m2) !! "edit-1").
Proof.
  destruct (@answered_event_opens_stream sampleVocabulary sampleCollaborators
              "s1" sampleEvent 7 () sampleListening
              ("http://localhost:" +:+ pretty 42427%N)
              1 (sampleRequest Agent.Start false) "const x = 1"
              eq_refl ltac:(discriminate) eq_refl eq_refl)
    as (Hstream & m2 & Hrun & Hentry).
  split; [exact Hstream|]. exists m2. split; [exact Hrun|].
  simpl in Hentry. rewrite Hentry. by eexists.
Defined.

Lemma editCounter_counts_finished_edits_sample :
  Agent.editCounter (Agent.provider sampleStarted)
  = length (finishedEdits (Agent.effects sampleStarted)).
Proof.
  exact (@editCounter_counts_finished_edits sampleVocabulary sampleCollaborators
           sampleStarted sampleStarted_reachable).
Defined.

Lemma eventQueue_append_only_sample :
  Agent.eventQueue (Agent.provider (Agent.handleEvent sampleEvent sampleMachine).2)
  = [sampleEvent].
Proof.
  exact (proj2 (@eventQueue_append_only sampleVocabulary sampleCollaborators
                  (Agent.op_handleEvent sampleEvent) sampleMachine _ eq_refl)
               sampleEvent eq_refl).
Defined.

Lemma events_in_flight_sample :
  let m := Agent.newSession "s1" sampleMachine in
  (Agent.handleEvent sampleEvent m).1 = true ∧
  (Agent.handleEvent sampleEvent (Agent.handleEvent sampleEvent m).2).1 = false.
Proof.
  intros m.
  destruct (@events_in_flight sampleVocabulary sampleCollaborators sampleEvent m "s1"
              eq_refl ltac:(discriminate)) as (Hfirst & _ & Hsecond & _).
  split; [exact Hfirst | exact Hsecond].
Defined.

Definition sampleEdits : @Agent.SidecarApplyEditsRequest sampleVocabulary :=
  @Agent.Build_SidecarApplyEditsRequest sampleVocabulary "/src/a.ts" false "x".

Lemma edit_handlers_without_stream_sample :
  (λ o, fst <$> o)
    (Agent.provideEditStreamed 1 (sampleRequest (Agent.Delta "x") false) sampleMachine)
  = Some (Js.Returned {| Agent.response_fs_file_path := ""; Agent.success := false |}) ∧
  (Agent.provideEdit sampleEdits sampleMachine).1
  = {| Agent.response_fs_file_path := "/src/a.ts"; Agent.success := true |}.
Proof.
  destruct (@edit_handlers_without_stream sampleVocabulary sampleCollaborators
              1 (sampleRequest (Agent.Delta "x") false) sampleEdits
              sampleMachine eq_refl eq_refl eq_refl) as [Hstreamed Hedit].
  split; [by rewrite Hstreamed | by rewrite Hedit].
Defined.

(** A stream of three texts with two line feeds: two lines reach the
    document, then the cleanup and the save; the text after the last line
    feed is never passed on. *)
Lemma streamed_edit_session_sample :
  ∃ m1 m2 m3,
    Agent.provideEditStreamed 3 (with_event Agent.Start (sampleRequest Agent.End true))
      sampleMachine = Some (Js.Returned Agent.accepted, m1) ∧
    deliver 3 ["let x" +:+ String (ascii_of_nat 10) "le";
               "t y" +:+ String (ascii_of_nat 10) "";
               "tail"] (sampleRequest Agent.End true) m1 = Some m2 ∧
    Agent.provideEditStreamed 3 (with_event Agent.End (sampleRequest Agent.End true)) m2
    = Some (Js.Returned Agent.accepted, m3) ∧
    Agent.world m3 = ["let x"; "let y"; "cleanup"; "saved /src/a.ts"] ∧
    Agent.editsMap (Agent.provider m3) = ∅ ∧
    Agent.editCounter (Agent.provider m3) = 1.
Proof.
  destruct (@streamed_edit_session sampleVocabulary sampleCollaborators sampleLineQueue 3
              ["let x" +:+ String (ascii_of_nat 10) "le";
               "t y" +:+ String (ascii_of_nat 10) "";
               "tail"]
              (sampleRequest Agent.End true) sampleMachine "const x = 1"
              (reachable_construct _ _ _ _ _) (or_introl eq_refl) eq_refl
              ltac:(vm_compute; lia))
    as (m1 & m2 & m3 & Hstart & Hdeliver & Hend & Hworld & Hmap & Hcounter).
  exists m1, m2, m3. split_and!; [exact Hstart | exact Hdeliver | exact Hend | ..].
  - rewrite Hworld. reflexivity.
  - rewrite Hmap. reflexivity.
  - rewrite Hcounter. reflexivity.
Defined.

(** ** Signing in and out *)

Section AuthRoundTrip.
Import Auth AuthFlow.
Context `{Json} `{!Identity}.

Lemma findIndexFrom_first {A : Type} (p : A → bool) (l : list A) (k : Z) :
  (∃ x, x ∈ l ∧ p x = true) →
  ∃ i x, Js.findIndexFrom p l k = (k + Z.of_nat i)%Z ∧ l !! i = Some x ∧ p x = true ∧
         ∀ j y, j < i → l !! j = Some y → p y = false.
Proof.
  revert k. induction l as [|y l IH]; intros k (x & Hin & Hx).
  - by apply elem_of_nil in Hin.
  - simpl. destruct (p y) eqn:Hy.
    + exists 0, y. split_and!; [lia | done | done | intros; lia].
    + apply elem_of_cons in Hin as [->|Hin]; [congruence|].
      destruct (IH (k + 1)%Z (ex_intro _ x (conj Hin Hx))) as (i & z & Hidx & Hz & Hpz & Hfirst).
      exists (S i), z. split_and!; [lia | done | done |].
      intros [|j] y' Hj Hy'; simpl in Hy'; [congruence|]. apply (Hfirst j); [lia | done].
Qed.

Lemma splice_one {A : Type} (l : list A) (i : nat) :
  i < length l → Js.splice (Z.of_nat i) 1 l = delete i l.
Proof.
  intros Hi. unfold Js.splice. rewrite bool_decide_false by lia.
  replace (Z.to_nat (Z.min (Z.of_nat i) (Z.of_nat (length l)))) with i by lia.
  replace (i + Nat.min 1 (length l - i)) with (S i) by lia.
  by rewrite delete_take_drop.
Qed.

(** X20: when some stored session has the given id, removeSession takes
    out the first such session and only that one, stores the rest in the
    same order, and fires exactly one event, which reports that session
    as removed. *)
Theorem removeSession_removes_first_match (h : Host) allSessions sessions sessionId :
  secrets h !! SESSIONS_SECRET_KEY = Some allSessions → allSessions ≠ "" →
  JSON_parse allSessions = Some sessions →
  (∃ s, s ∈ sessions ∧ id s = sessionId) →
  ∃ i session,
    sessions !! i = Some session ∧ id session = sessionId ∧
    (∀ j s, j < i → sessions !! j = Some s → id s ≠ sessionId) ∧
    removeSession sessionId h =
    (Js.Returned (),
     fire {| ev_added := []; ev_removed := [session]; ev_changed := [] |}
          (store SESSIONS_SECRET_KEY (JSON_stringify (delete i sessions)) h)).
Proof.
  intros Hget Hne Hparse (s & Hin & Hid).
  destruct (findIndexFrom_first (λ s, bool_decide (id s = sessionId)) sessions 0)
    as (i & session & Hidx & Hsession & Hmatch & Hfirst).
  { exists s. split; [done|]. by apply bool_decide_eq_true. }
  exists i, session. apply bool_decide_eq_true in Hmatch.
  split_and!; [done | done | |].
  - intros j s' Hj Hs'. specialize (Hfirst j s' Hj Hs').
    by apply bool_decide_eq_false in Hfirst.
  - rewrite (removeSession_known_id h allSessions sessions sessionId i session);
      [|done..]. by rewrite splice_one by (by eapply lookup_lt_Some).
Qed.

(** X21: a sign-in that succeeds stores the list holding the new session
    alone, whatever was stored before, fires one event reporting it as
    added, shows no error and answers the session, which expires in five
    minutes and carries the user's name and e-mail.  If the stored text
    reads back as that list, getSessions then answers exactly that
    session, and removing it by its id leaves the stored list empty and
    fires one event reporting it as removed. *)
Theorem sign_in_then_out scopes uuid (w : Window) encodedTokenData userInfo :
  login scopes = Js.Returned encodedTokenData → encodedTokenData ≠ "" →
  getUserInfo encodedTokenData = Js.Returned userInfo →
  ∃ session w',
    createSession scopes uuid w = (Js.Returned session, w') ∧
    id session = uuid ∧ expiresIn session = 300000%Z ∧
    account session =
      {| label := first_name (user userInfo) +:+ " " +:+ last_name (user userInfo);
         account_id := email (user userInfo) |} ∧
    secrets (host w') = <[SESSIONS_SECRET_KEY := JSON_stringify [session]]> (secrets (host w)) ∧
    fired (host w') =
      fired (host w) ++ [{| ev_added := [session]; ev_removed := []; ev_changed := [] |}] ∧
    errorMessages w' = errorMessages w ∧
    (JSON_stringify [session] ≠ "" → JSON_parse (JSON_stringify [session]) = Some [session] →
     getSessions (host w') = Js.Returned [session] ∧
     ∃ h'', removeSession uuid (host w') = (Js.Returned (), h'') ∧
            secrets h'' = <[SESSIONS_SECRET_KEY := JSON_stringify []]> (secrets (host w)) ∧
            fired h'' =
              fired (host w)
              ++ [{| ev_added := [session]; ev_removed := []; ev_changed := [] |};
                  {| ev_added := []; ev_removed := [session]; ev_changed := [] |}]).
Proof.
  intros Hlogin Hne Hinfo. unfold createSession. rewrite Hlogin.
  unfold Js.truthy at 1. rewrite bool_decide_false by done. simpl. rewrite Hinfo.
  eexists _, _. split; [reflexivity|]. split_and!; try done.
  intros Hstored Hread. simpl.
  match goal with |- context [JSON_stringify [?s]] => set (session := s) in * end.
  set (h' := fire _ (store _ _ (host w))).
  assert (secrets h' !! SESSIONS_SECRET_KEY = Some (JSON_stringify [session])) as Hget.
  { subst h'. simpl. by rewrite lookup_insert_eq. }
  split.
  - unfold getSessions. by rewrite (get_truthy_Some _ _ _ Hget Hstored), Hread.
  - rewrite (removeSession_known_id h' _ _ uuid 0 session Hget Hstored Hread);
      [|by unfold Js.findIndex; subst session; simpl; rewrite bool_decide_true|done].
    eexists. split; [reflexivity|]. subst h'. simpl. split.
    + by rewrite insert_insert_eq.
    + by rewrite <- app_assoc.
Qed.

(** X22: a sign-in that fails -- the login is rejected, it hands back no
    token, or the profile cannot be read -- stores nothing, fires no
    event, shows exactly one error message, 'Sign in failed: ' followed
    by the error, and throws the same error again. *)
Theorem sign_in_failure scopes uuid (w : Window) :
  let failure :=
    match login scopes with
    | Js.Threw e => Some e
    | Js.Returned encodedTokenData =>
        if bool_decide (encodedTokenData = "") then Some "Error: CodeStory login failure"
        else match getUserInfo encodedTokenData with
             | Js.Threw e => Some e
             | Js.Returned _ => None
             end
    end in
  ∀ e, failure = Some e →
       createSession scopes uuid w =
       (Js.Threw e,
        {| host := host w; errorMessages := errorMessages w ++ ["Sign in failed: " +:+ e] |}).
Proof.
  intros failure e. subst failure. unfold createSession, signInFailed, Js.truthy.
  destruct (login scopes) as [encodedTokenData|e']; [|by intros [= <-]].
  case_bool_decide; simpl; [by intros [= <-]|].
  destruct (getUserInfo encodedTokenData) as [userInfo|e']; [done | by intros [= <-]].
Qed.

End AuthRoundTrip.

(** A sign-in for the sample codec: the login hands back a token and the
    profile is the sample user's. *)
Definition sampleIdentity : AuthFlow.Identity :=
  {| AuthFlow.login := λ _, Js.Returned "dG9rZW4=";
     AuthFlow.getUserInfo := λ _,
       Js.Returned
         {| AuthFlow.user :=
              {| AuthFlow.user_id := "u-1"; AuthFlow.first_name := "Ada";
                 AuthFlow.last_name := "Lovelace"; AuthFlow.email := "ada@example.org";
                 AuthFlow.created_at := ""; AuthFlow.updated_at := "";
                 AuthFlow.email_verified := true; AuthFlow.profile_picture_url := "" |};
            AuthFlow.access_token := "at"; AuthFlow.refresh_token := "rt" |} |}.

(** A sign-in that is cancelled. *)
Definition sampleCancelled : AuthFlow.Identity :=
  {| AuthFlow.login := λ _, Js.Threw "User Cancelled";
     AuthFlow.getUserInfo := λ _, Js.Threw "unreachable" |}.

Definition sampleWindow : AuthFlow.Window :=
  {| AuthFlow.host := {| Auth.secrets := ∅; Auth.fired := [] |};
     AuthFlow.errorMessages := [] |}.

Lemma removeSession_removes_first_match_sample :
  ∃ i session,
    [sampleSession] !! i = Some session ∧ Auth.id session = "7d0c" ∧
    (∀ j s, j < i → [sampleSession] !! j = Some s → Auth.id s ≠ "7d0c") ∧
    @Auth.removeSession sampleJson "7d0c" sampleHost =
    (Js.Returned (),
     Auth.fire {| Auth.ev_added := []; Auth.ev_removed := [session]; Auth.ev_changed := [] |}
       (Auth.store Auth.SESSIONS_SECRET_KEY
          (@Auth.JSON_stringify sampleJson (delete i [sampleSession])) sampleHost)).
Proof.
  apply (@removeSession_removes_first_match sampleJson sampleHost "[7d0c]" [sampleSession]);
    [reflexivity | discriminate | reflexivity |].
  exists sampleSession. split; [by apply list_elem_of_singleton | reflexivity].
Defined.

Lemma sign_in_then_out_sample :
  ∃ session w',
    @AuthFlow.createSession sampleJson sampleIdentity [] "7d0c" sampleWindow
    = (Js.Returned session, w') ∧
    session = sampleSession ∧
    @Auth.getSessions sampleJson (AuthFlow.host w') = Js.Returned [sampleSession] ∧
    ∃ h'', @Auth.removeSession sampleJson "7d0c" (AuthFlow.host w') = (Js.Returned (), h'') ∧
           @Auth.getSessions sampleJson h'' = Js.Returned [].
Proof.
  destruct (@sign_in_then_out sampleJson sampleIdentity [] "7d0c" sampleWindow
              "dG9rZW4=" _ eq_refl ltac:(discriminate) eq_refl)
    as (session & w' & Hrun & _ & _ & _ & _ & _ & _ & Hround).
  exists session, w'. split; [exact Hrun|].
  injection Hrun as <- <-. split; [reflexivity|].
  destruct (Hround ltac:(discriminate) eq_refl) as (Hget & h'' & Hremove & Hsecrets & _).
  split; [exact Hget|]. exists h''. split; [exact Hremove|].
  unfold Auth.getSessions, Auth.get_truthy. rewrite Hsecrets. reflexivity.
Defined.

Lemma sign_in_failure_sample :
  @AuthFlow.createSession sampleJson sampleCancelled [] "7d0c" sampleWindow
  = (Js.Threw "User Cancelled",
     {| AuthFlow.host := AuthFlow.host sampleWindow;
        AuthFlow.errorMessages := ["Sign in failed: User Cancelled"] |}).
Proof.
  exact (@sign_in_failure sampleJson sampleCancelled [] "7d0c" sampleWindow
           "User Cancelled" eq_refl).
Defined.

(** ** The lines of a document *)

Section DocumentLines.
Import Agent.

Definition lineBreak (c : ascii) : bool :=
  bool_decide (nat_of_ascii c = 13) || bool_decide (nat_of_ascii c = 10).

(** A text without carriage return and line feed. *)
Fixpoint unbroken (s : string) : bool :=
  match s with
  | EmptyString => true
  | String c rest => negb (lineBreak c) && unbroken rest
  end.

(** A text without carriage return. *)
Fixpoint unixText (s : string) : bool :=
  match s with
  | EmptyString => true
  | String c rest => negb (bool_decide (nat_of_ascii c = 13)) && unixText rest
  end.

Definition lineFeed : string := String (ascii_of_nat 10) EmptyString.

Lemma append_cons (c : ascii) (s t : string) : String c s +:+ t = String c (s +:+ t).
Proof. reflexivity. Qed.

Lemma append_nil_r (s : string) : s +:+ "" = s.
Proof. induction s as [|c s IH]; [done|]. by rewrite append_cons, IH. Qed.

Lemma append_assoc (s t u : string) : (s +:+ t) +:+ u = s +:+ (t +:+ u).
Proof. induction s as [|c s IH]; [done|]. by rewrite !append_cons, IH. Qed.

Lemma unbroken_append (s t : string) : unbroken (s +:+ t) = unbroken s && unbroken t.
Proof.
  induction s as [|c s IH]; [done|]. rewrite append_cons. simpl.
  rewrite IH. by rewrite andb_assoc.
Qed.

Lemma splitLinesFrom_nonempty (current s : string) : splitLinesFrom current s ≠ [].
Proof.
  revert current. induction s as [|c s IH]; intros current; simpl; [done|].
  case_bool_decide; [by destruct s as [|c' s']; [|case_bool_decide]|].
  case_bool_decide; [done|]. apply IH.
Qed.

Lemma splitLinesFrom_unbroken (n : nat) (current s : string) :
  String.length s ≤ n → unbroken current = true →
  Forall (λ line, unbroken line = true) (splitLinesFrom current s).
Proof.
  revert current s. induction n as [|n IH]; intros current s Hn Hcurrent.
  - destruct s; [|simpl in Hn; lia]. simpl. by constructor.
  - destruct s as [|c rest]; simpl; [by constructor|]. simpl in Hn.
    case_bool_decide as Hcr.
    + destruct rest as [|c' rest'].
      * repeat constructor. done.
      * case_bool_decide; constructor; try done; apply IH; try done; simpl in *; lia.
    + case_bool_decide as Hlf; [constructor; [done|]; apply IH; [lia | done]|].
      apply IH; [lia|]. rewrite unbroken_append, Hcurrent. simpl.
      unfold lineBreak. by rewrite !bool_decide_false.
Qed.

Lemma splitLinesFrom_join (current s : string) :
  unixText s = true →
  String.concat lineFeed (splitLinesFrom current s) = current +:+ s.
Proof.
  revert current. induction s as [|c s IH]; intros current Hunix; simpl.
  - by rewrite append_nil_r.
  - simpl in Hunix. apply andb_true_iff in Hunix as [Hc Hunix].
    apply negb_true_iff, bool_decide_eq_false in Hc.
    rewrite bool_decide_false by done.
    case_bool_decide as Hlf.
    + pose proof (splitLinesFrom_nonempty "" s) as Hne.
      specialize (IH "" Hunix).
      destruct (splitLinesFrom "" s) as [|line lines] eqn:Hsplit; [done|].
      change (String.concat lineFeed (current :: line :: lines))
        with (current +:+ lineFeed +:+ String.concat lineFeed (line :: lines)).
      rewrite IH. f_equal. change (String (ascii_of_nat 10) s = String c s). f_equal.
      by rewrite <- (ascii_nat_embedding c), Hlf.
    + rewrite IH by done. by rewrite append_assoc.
Qed.

Lemma splitLinesFrom_single (current s : string) :
  unbroken s = true → splitLinesFrom current s = [current +:+ s].
Proof.
  revert current. induction s as [|c s IH]; intros current Hs; simpl.
  - by rewrite append_nil_r.
  - simpl in Hs. apply andb_true_iff in Hs as [Hc Hs].
    unfold lineBreak in Hc. apply negb_true_iff, orb_false_iff in Hc as [Hcr Hlf].
    rewrite Hcr, Hlf. rewrite IH by done. by rewrite append_assoc.
Qed.

(** X23: the document lines handed to a stream processor: splitting a
    text at CRLF, CR and LF always gives at least one line, and no line
    contains a carriage return or a line feed; a text without line break
    is its own single line; and for a text without carriage returns the
    lines joined by line feeds are the text again. *)
Theorem splitLines_lines (s : string) :
  splitLines s ≠ [] ∧
  Forall (λ line, unbroken line = true) (splitLines s) ∧
  (unbroken s = true → splitLines s = [s]) ∧
  (unixText s = true → String.concat lineFeed (splitLines s) = s).
Proof.
  unfold splitLines. split_and!.
  - apply splitLinesFrom_nonempty.
  - by apply (splitLinesFrom_unbroken (String.length s)).
  - intros Hs. by rewrite splitLinesFrom_single.
  - intros Hs. by rewrite splitLinesFrom_join.
Qed.

(** A text with the three kinds of line break. *)
Example splitLines_mixed :
  splitLines ("a" +:+ String (ascii_of_nat 13) (String (ascii_of_nat 10) "b")
              +:+ String (ascii_of_nat 13) "c" +:+ String (ascii_of_nat 10) "")
  = ["a"; "b"; "c"; ""].
Proof. reflexivity. Qed.

End DocumentLines.
